(** * Tiled U-Net segmentation of a sub-volume (volumeSegmentation.py)

    A shallow embedding of [main] of [volumeSegmentation.py] together with
    the parts of [tools.tilingStrategy] and [tools.postProcessing] it drives.
    Those two modules are not part of the sources at hand; the definitions
    that stand for them say so in their doc comment and follow the
    specification of the repository. *)

From Stdlib Require Import ZArith QArith Reals String List Bool Lia Lra Sorted.
Import ListNotations.
Open Scope Z_scope.

(** ** Coordinates and bounding boxes *)

(** A 3-D integer vector [(x, y, z)]. *)
Record V3 := mkV3 { vx : Z; vy : Z; vz : Z }.

Inductive axis := AX | AY | AZ.

Definition get (a : axis) (v : V3) : Z :=
  match a with AX => vx v | AY => vy v | AZ => vz v end.

Definition vmap2 (f : Z -> Z -> Z) (u v : V3) : V3 :=
  mkV3 (f (vx u) (vx v)) (f (vy u) (vy v)) (f (vz u) (vz v)).

Definition vadd := vmap2 Z.add.
Definition vsub := vmap2 Z.sub.
Definition vmax := vmap2 Z.max.
Definition vmin := vmap2 Z.min.
Definition origin : V3 := mkV3 0 0 0.

(** Half-open box [start, end). *)
Record box := mkBox { bstart : V3; bend : V3 }.

Definition extent (b : box) : V3 := vsub (bend b) (bstart b).

Definition in_range (lo x hi : Z) : bool := (lo <=? x) && (x <? hi).

Definition in_box (p : V3) (b : box) : bool :=
  in_range (vx (bstart b)) (vx p) (vx (bend b)) &&
  in_range (vy (bstart b)) (vy p) (vy (bend b)) &&
  in_range (vz (bstart b)) (vz p) (vz (bend b)).

Definition box_inter (b1 b2 : box) : box :=
  mkBox (vmax (bstart b1) (bstart b2)) (vmin (bend b1) (bend b2)).

(** A box is empty when some axis has [start >= end]. *)
Definition box_empty (b : box) : bool :=
  (vx (bend b) <=? vx (bstart b)) || (vy (bend b) <=? vy (bstart b)) ||
  (vz (bend b) <=? vz (bstart b)).

(** ** TilePlan ([tools.tilingStrategy.UnetTiling3D]) *)

Record tile := mkTile {
  tindex : nat;
  input_bbox : box;
  output_bbox : box;
  valid_output_bbox : box
}.

Record plan := mkPlan {
  tiles : list tile;
  union_input : box;
  target_region : box
}.

Inductive plan_outcome :=
| Planned (p : plan)
| PlanConfigurationError
| PlanNoTermination.

(** Modelled from the spec: the per-axis loop of [UnetTiling3D] (missing
    from the sources), "tile output windows with stride =
    model_output_shape[i], starting at target_region.start[i], while
    start < target_region.end[i]".  The loop runs on [fuel] iterations;
    [None] means it has not left the loop after them.  With a positive
    stride [Z.to_nat (e - s)] iterations always suffice, with a stride
    [<= 0] and [s < e] the loop never exits, so with that fuel [None]
    is exactly non-termination. *)
Fixpoint axis_starts (fuel : nat) (s e stride : Z) : option (list Z) :=
  if s <? e then
    match fuel with
    | O => None
    | S f =>
        match axis_starts f (s + stride) e stride with
        | Some l => Some (s :: l)
        | None => None
        end
    end
  else Some [].

Definition axis_tiling (t0 t1 stride : Z) : option (list Z) :=
  axis_starts (Z.to_nat (t1 - t0)) t0 t1 stride.

(** Row-major enumeration of the grid, outermost axis ([x]) slowest. *)
Definition grid (xs ys zs : list Z) : list V3 :=
  flat_map (fun x => flat_map (fun y => map (fun z => mkV3 x y z) zs) ys) xs.

(** Leading margin [(in - out) / 2] (floor); the odd unit, if any, goes to
    the trailing side. *)
Definition margin_leading (mis mos : V3) : V3 :=
  vmap2 (fun i o => (i - o) / 2) mis mos.
Definition margin_trailing (mis mos : V3) : V3 :=
  vsub (vsub mis mos) (margin_leading mis mos).

Definition make_tile (global : V3) (target : box) (mis mos : V3)
    (i : nat) (s : V3) : tile :=
  let ob := mkBox s (vadd s mos) in
  mkTile i
    (mkBox (vsub s (margin_leading mis mos))
           (vadd (vadd s mos) (margin_trailing mis mos)))
    ob
    (box_inter (box_inter ob target) (mkBox origin global)).

Fixpoint enumerate_tiles (global : V3) (target : box) (mis mos : V3)
    (i : nat) (starts : list V3) : list tile :=
  match starts with
  | [] => []
  | s :: rest =>
      make_tile global target mis mos i s
        :: enumerate_tiles global target mis mos (S i) rest
  end.

(** Union input bbox: componentwise min of starts / max of ends. *)
Definition bbox_hull (b1 b2 : box) : box :=
  mkBox (vmin (bstart b1) (bstart b2)) (vmax (bend b1) (bend b2)).

Definition union_of (ts : list tile) : option box :=
  match ts with
  | [] => None
  | t :: rest =>
      Some (fold_left (fun b t' => bbox_hull b (input_bbox t')) rest
                      (input_bbox t))
  end.

Definition axis_bad (global : V3) (target : box) (mis mos : V3)
    (a : axis) : bool :=
  (get a mis <? get a mos) ||
  (get a (bend target) <=? get a (bstart target)) ||
  (Z.min (get a (bend target)) (get a global)
     <=? Z.max (get a (bstart target)) 0).

(** Modelled from the spec: the constructor of [UnetTiling3D] (§4.2):
    ConfigurationError when [model_output_shape[i] > model_input_shape[i]],
    when the target region is empty, or when it is disjoint from
    [0, global_shape). *)
Definition UnetTiling3D (global : V3) (target : box) (mis mos : V3)
    : plan_outcome :=
  if axis_bad global target mis mos AX || axis_bad global target mis mos AY
     || axis_bad global target mis mos AZ
  then PlanConfigurationError
  else
    match axis_tiling (vx (bstart target)) (vx (bend target)) (vx mos),
          axis_tiling (vy (bstart target)) (vy (bend target)) (vy mos),
          axis_tiling (vz (bstart target)) (vz (bend target)) (vz mos) with
    | Some xs, Some ys, Some zs =>
        let ts := enumerate_tiles global target mis mos 0 (grid xs ys zs) in
        match union_of ts with
        | Some u => Planned (mkPlan ts u target)
        | None => PlanNoTermination (* no tile at all: unreachable, the
                                       target region is not empty *)
        end
    | _, _, _ => PlanNoTermination
    end.

Definition getInputVolume (p : plan) : box := union_input p.

(** ** Hysteresis flood fill ([tools.postProcessing.clean_floodFill]) *)

Module FloodFill.

(** A 3-D volume: its shape and its voxel values. *)
Record vol := mkVol { vshape : V3; vat : V3 -> Q }.

Definition in_bounds (v : vol) (p : V3) : bool :=
  in_box p (mkBox origin (vshape v)).

Definition unit_x := mkV3 1 0 0.
Definition unit_y := mkV3 0 1 0.
Definition unit_z := mkV3 0 0 1.

(** The six face neighbours of [p]. *)
Definition neighbours (p : V3) : list V3 :=
  [vadd p unit_x; vsub p unit_x; vadd p unit_y; vsub p unit_y;
   vadd p unit_z; vsub p unit_z].

Definition seeds (high : Q) (v : vol) (p : V3) : bool :=
  in_bounds v p && Qle_bool high (vat v p).

(** One growth round: a voxel joins when it is in the volume, its value is
    [>= low] and one of its six neighbours has been reached. *)
Definition grow (low : Q) (v : vol) (S : V3 -> bool) (p : V3) : bool :=
  S p || (in_bounds v p && Qle_bool low (vat v p) && existsb S (neighbours p)).

Fixpoint iterate (n : nat) (f : (V3 -> bool) -> (V3 -> bool))
    (S : V3 -> bool) : V3 -> bool :=
  match n with O => S | Datatypes.S k => iterate k f (f S) end.

(** A flood path visits each voxel at most once, so as many rounds as there
    are voxels reach every voxel connected to a seed. *)
Definition voxels (v : vol) : nat :=
  Z.to_nat (vx (vshape v) * vy (vshape v) * vz (vshape v)).

Definition reached (high low : Q) (v : vol) : V3 -> bool :=
  iterate (voxels v) (grow low v) (seeds high v).

(** Modelled from the spec (§4.4, the module [tools.postProcessing] is
    missing): "seeds = voxels >= high_threshold; grow each seed through
    6-connected neighbors whose value >= low_threshold; all reached voxels
    -> foreground(1), all others -> background(0)". *)
Definition clean_floodFill (high low : Q) (v : vol) : vol :=
  mkVol (vshape v) (fun p => if reached high low v p then 1%Q else 0%Q).

End FloodFill.

(** ** Arrays and AbsoluteCanvas ([tools.tilingStrategy.AbsoluteCanvas]) *)

(** A dense 3-D float array (numpy): its shape and its values, indexed by
    local coordinates. *)
Record arr := mkArr { ashape : V3; aat : V3 -> R }.

(** A model output tile: a 3-D array with a trailing class axis. *)
Record parr := mkParr { pshape : V3; pclasses : nat; pat : V3 -> nat -> R }.

Record AbsoluteCanvas := mkCanvas {
  global_shape : V3;
  canvas_area : box;
  image : arr
}.

Inductive error :=
| ConfigurationError
| OutOfRangeError
| ShapeError
| IndexError
| ValueError
| InvalidArgumentError
| StopIteration
| ExternalError (code : nat).

Definition V3_eqb (u v : V3) : bool :=
  (vx u =? vx v) && (vy u =? vy v) && (vz u =? vz v).

Inductive result (A : Type) :=
| Ok (a : A)
| Err (e : error)
| Hang.
Arguments Ok {A} a.
Arguments Err {A} e.
Arguments Hang {A}.

(** Modelled from the spec: [AbsoluteCanvas.write] (§4.1).  The query box
    is clipped to the canvas area; an empty intersection is an
    OutOfRangeError, data of another shape than the intersection a
    ShapeError; otherwise the data lands at the local offset
    [intersection.start - area.start]. *)
Definition canvas_write (c : AbsoluteCanvas) (q : box) (data : arr)
    : result AbsoluteCanvas :=
  let ib := box_inter q (canvas_area c) in
  if box_empty ib then Err OutOfRangeError
  else if negb (V3_eqb (ashape data) (extent ib)) then Err ShapeError
  else
    let lo := vsub (bstart ib) (bstart (canvas_area c)) in
    Ok (mkCanvas (global_shape c) (canvas_area c)
          (mkArr (ashape (image c))
             (fun l => if in_box l (mkBox lo (vadd lo (extent ib)))
                       then aat data (vsub l lo)
                       else aat (image c) l))).

(** Modelled from the spec: the zero-padded read of a box that feeds the
    model (§4.2 boundary policy, §4.3): voxels outside the canvas area
    read as 0. *)
Definition read_padded (c : AbsoluteCanvas) (b : box) : arr :=
  mkArr (extent b)
    (fun l => let p := vadd (bstart b) l in
              if in_box p (canvas_area c)
              then aat (image c) (vsub p (bstart (canvas_area c)))
              else 0%R).

(** ** TileStream ([tools.tilingStrategy.UnetTiler3D]) *)

(** Modelled from the spec: [getGeneratorFactory] yields, in tile-index
    order, the zero-padded read of every tile's input bbox. *)
Definition getGeneratorFactory (p : plan) (input_canvas : AbsoluteCanvas)
    : list arr :=
  map (fun t => read_padded input_canvas (input_bbox t)) (tiles p).

(** Modelled from the spec: [writeSlice(index, window)] (§4.3).
    IndexError for an index out of range, ShapeError for a window whose
    shape is not the tile's output window; otherwise the part of the
    window that [valid_output_bbox] occupies inside [output_bbox] is
    written to the canvas at [valid_output_bbox]. *)
Definition writeSlice (p : plan) (c : AbsoluteCanvas) (index : Z) (d : arr)
    : result AbsoluteCanvas :=
  if (index <? 0) || (Z.of_nat (length (tiles p)) <=? index)
  then Err IndexError
  else
    match nth_error (tiles p) (Z.to_nat index) with
    | None => Err IndexError
    | Some t =>
        if negb (V3_eqb (ashape d) (extent (output_bbox t))) then Err ShapeError
        else
          let vb := valid_output_bbox t in
          let off := vsub (bstart vb) (bstart (output_bbox t)) in
          canvas_write c vb (mkArr (extent vb) (fun l => aat d (vadd l off)))
    end.

(** ** The orchestrator ([main], volumeSegmentation.py lines 32-257) *)

(** Parsed command-line arguments (lines 35-129). *)
Record args := mkArgs {
  input_path : string;
  input_data_set : string;
  output_data_set : string;
  model_path : string;
  scaling : option R;
  output_path : string;
  start_coord : V3;
  end_coord : V3;
  model_input_shape : V3;
  model_output_shape : V3;
  image_shape : V3;
  with_post_processing : bool;
  as_binary_mask : bool;
  unet_batch_size : Z;
  high_threshold : R;
  low_threshold : R;
  small_region_probability_threshold : R;
  small_region_size_threshold : Z
}.

(** The external collaborators of [main]: n5 I/O, intensity scaling, the
    Keras model and the two post-processing passes.  The passes mutate the
    array they get in place; here they return its new contents. *)
Record env := mkEnv {
  read_n5_block : string -> string -> V3 -> V3 -> result arr;
  calculateScalingFactor : arr -> result R;
  scaleImage : arr -> R -> result arr;
  load_model : string -> result unit;
  predict : list arr -> result (list parr);
  clean_floodFill : arr -> R -> R -> result arr;
  removeSmallObjects : arr -> R -> Z -> result arr;
  write_n5_block : string -> string -> V3 -> V3 -> arr -> result unit
}.

(** Observable events of a run: each call of a collaborator with its
    arguments, the construction of the two canvases, each [writeSlice]
    call, and an exception leaving [main]. *)
Inductive event :=
| ERead (path ds : string) (s e : V3)
| ECalcScale (img : arr)
| EScale (img : arr) (f : R)
| ELoadModel (path : string)
| EInputCanvas (c : AbsoluteCanvas)
| EOutputCanvas (c : AbsoluteCanvas)
| EPredict (inp : list arr)
| EWriteSlice (index : Z) (d : arr)
| EFloodFill (img : arr) (high low : R)
| ERemoveSmall (img : arr) (prob : R) (size : Z)
| EWrite (path ds : string) (s e : V3) (a : arr)
| ERaised (e : error).

(** The run monad: the mutable state is the output canvas ([tiler.mask]);
    a step returns its outcome, the events it emitted and the new state. *)
Definition M (A : Type) : Type :=
  AbsoluteCanvas -> result A * list event * AbsoluteCanvas.

Definition ret {A} (a : A) : M A := fun s => (Ok a, [], s).

Definition bind {A B} (m : M A) (f : A -> M B) : M B :=
  fun s =>
    match m s with
    | (Ok a, t1, s1) =>
        match f a s1 with (r, t2, s2) => (r, t1 ++ t2, s2) end
    | (Err e, t1, s1) => (Err e, t1, s1)
    | (Hang, t1, s1) => (Hang, t1, s1)
    end.

Notation "x <- m ;; k" := (bind m (fun x => k))
  (at level 61, m at next level, right associativity).
Notation "m ;;; k" := (bind m (fun _ => k))
  (at level 61, right associativity).

Definition emit (ev : event) : M unit := fun s => (Ok tt, [ev], s).
Definition raise {A} (e : error) : M A := fun s => (Err e, [ERaised e], s).
Definition hang {A} : M A := fun s => (Hang, [], s).
Definition get_mask : M AbsoluteCanvas := fun s => (Ok s, [], s).
Definition put_mask (c : AbsoluteCanvas) : M unit := fun _ => (Ok tt, [], c).

Definition lift {A} (r : result A) : M A :=
  match r with Ok a => ret a | Err e => raise e | Hang => hang end.

(** A collaborator call: the call is observed, then its outcome. *)
Definition call {A} (ev : event) (r : result A) : M A := emit ev ;;; lift r.

(** [np.zeros(shape)]: a negative dimension is a ValueError. *)
Definition zeros (sh : V3) : result arr :=
  if (vx sh <? 0) || (vy sh <? 0) || (vz sh <? 0) then Err ValueError
  else Ok (mkArr sh (fun _ => 0%R)).

(** [tf.data.Dataset.batch(n)]: consecutive groups of [n] elements, the last
    one possibly shorter; a batch size [<= 0] is an InvalidArgumentError. *)
Fixpoint chunks {A} (n : nat) (fuel : nat) (l : list A) : list (list A) :=
  match fuel, l with
  | O, _ | _, [] => []
  | S f, _ => firstn n l :: chunks n f (skipn n l)
  end.

Definition dataset_batch {A} (n : Z) (l : list A) : result (list (list A)) :=
  if n <=? 0 then Err InvalidArgumentError
  else Ok (chunks (Z.to_nat n) (length l) l).

(** [np.argmax] over the class axis of one voxel: the first index of a
    maximal score. *)
Definition argmax (score : nat -> R) (classes : nat) : nat :=
  fold_left (fun best k => if Rlt_dec (score best) (score k) then k else best)
    (seq 1 (classes - 1)) 0%nat.

Definition sum_exp (score : nat -> R) (classes : nat) : R :=
  fold_right Rplus 0%R (map (fun k => exp (score k)) (seq 0 classes)).

(** [tf.nn.softmax(.., axis=-1)[..., 1]] at one voxel. *)
Definition softmax1 (score : nat -> R) (classes : nat) : R :=
  (exp (score 1%nat) / sum_exp score classes)%R.

(** Lines 228-233: reduce the class axis of one predicted tile.  An empty
    class axis makes [np.argmax] raise, a class axis without channel 1 makes
    [[..., 1]] raise. *)
Definition reduce_tile (as_binary : bool) (t : parr) : result arr :=
  if as_binary then
    if (pclasses t =? 0)%nat then Err ValueError
    else Ok (mkArr (pshape t) (fun p => INR (argmax (pat t p) (pclasses t))))
  else
    if (pclasses t <? 2)%nat then Err IndexError
    else Ok (mkArr (pshape t) (fun p => softmax1 (pat t p) (pclasses t))).

Fixpoint reduce_batch (as_binary : bool) (ts : list parr) : result (list arr) :=
  match ts with
  | [] => Ok []
  | t :: rest =>
      match reduce_tile as_binary t, reduce_batch as_binary rest with
      | Ok a, Ok l => Ok (a :: l)
      | Err e, _ => Err e
      | Ok _, Err e => Err e
      | Hang, _ | Ok _, Hang => Hang
      end
  end.

Definition set_image (c : AbsoluteCanvas) (img : arr) : AbsoluteCanvas :=
  mkCanvas (global_shape c) (canvas_area c) img.

(** Lines 236-238: write each tile of the reduced batch, advancing the
    tile counter. *)
Fixpoint write_batch (tiling : plan) (tile : Z) (ds : list arr) : M Z :=
  match ds with
  | [] => ret tile
  | d :: rest =>
      emit (EWriteSlice tile d) ;;;
      c <- get_mask ;;
      c' <- lift (writeSlice tiling c tile d) ;;
      put_mask c' ;;;
      write_batch tiling (tile + 1) rest
  end.

(** Lines 223-240: [while tile < len(tiler)], one [next] of the batched
    dataset per round; an exhausted iterator raises StopIteration. *)
Fixpoint predict_loop (E : env) (a : args) (tiling : plan) (n : Z) (tile : Z)
    (batches : list (list arr)) : M unit :=
  if tile <? n then
    match batches with
    | [] => raise StopIteration
    | inp :: rest =>
        batch <- call (EPredict inp) (predict E inp) ;;
        reduced <- lift (reduce_batch (as_binary_mask a) batch) ;;
        tile' <- write_batch tiling tile reduced ;;
        predict_loop E a tiling n tile' rest
    end
  else ret tt.

(** Lines 125-214: the tiling, the bulk read of the clipped union input
    bbox, intensity scaling, model loading, the two canvases and the
    batched tile dataset.  The channel axis that [preprocess_dataset] adds
    is left implicit. *)
Definition setup (E : env) (a : args) : M (plan * list (list arr)) :=
  let start := start_coord a in
  let end_ := end_coord a in
  let subvolume := mkBox start end_ in
  let subvolume_shape := vsub end_ start in
  match UnetTiling3D (image_shape a) subvolume (model_input_shape a)
          (model_output_shape a) with
  | PlanConfigurationError => raise ConfigurationError
  | PlanNoTermination => hang
  | Planned tiling =>
      let input_volume_aabb := getInputVolume tiling in
      let unet_start := vmax origin (bstart input_volume_aabb) in
      let unet_end := vmin (image_shape a) (bend input_volume_aabb) in
      img <- call (ERead (input_path a) (input_data_set a) unet_start unet_end)
                  (read_n5_block E (input_path a) (input_data_set a)
                     unet_start unet_end) ;;
      scalingFactor <-
        match scaling a with
        | None => call (ECalcScale img) (calculateScalingFactor E img)
        | Some f => ret f
        end ;;
      img <- call (EScale img scalingFactor) (scaleImage E img scalingFactor) ;;
      call (ELoadModel (model_path a)) (load_model E (model_path a)) ;;;
      let input_canvas :=
        mkCanvas (image_shape a) (mkBox unet_start unet_end) img in
      emit (EInputCanvas input_canvas) ;;;
      output_image <- lift (zeros subvolume_shape) ;;
      let output_canvas := mkCanvas (image_shape a) subvolume output_image in
      emit (EOutputCanvas output_canvas) ;;;
      put_mask output_canvas ;;;
      batches <- lift (dataset_batch (unet_batch_size a)
                         (getGeneratorFactory tiling input_canvas)) ;;
      ret (tiling, batches)
  end.

(** Lines 243-249: the optional post-processing, both passes in place on
    [tiler.mask.image]. *)
Definition post_processing (E : env) (a : args) : M unit :=
  if with_post_processing a then
    c <- get_mask ;;
    img <- call (EFloodFill (image c) (high_threshold a) (low_threshold a))
                (clean_floodFill E (image c) (high_threshold a)
                   (low_threshold a)) ;;
    put_mask (set_image c img) ;;;
    c <- get_mask ;;
    img <- call (ERemoveSmall (image c) (small_region_probability_threshold a)
                   (small_region_size_threshold a))
                (removeSmallObjects E (image c)
                   (small_region_probability_threshold a)
                   (small_region_size_threshold a)) ;;
    put_mask (set_image c img)
  else ret tt.

(** Lines 254-256: persist [tiler.mask.image] at [start, end]. *)
Definition write_result (E : env) (a : args) : M unit :=
  c <- get_mask ;;
  call (EWrite (output_path a) (output_data_set a) (start_coord a)
          (end_coord a) (image c))
       (write_n5_block E (output_path a) (output_data_set a) (start_coord a)
          (end_coord a) (image c)).

Definition main (E : env) (a : args) : M unit :=
  bind (setup E a) (fun '(tiling, batches) =>
    predict_loop E a tiling (Z.of_nat (length (tiles tiling))) 0 batches ;;;
    post_processing E a ;;;
    write_result E a).

(** Projections of a run. *)
Definition outcome {A} (r : result A * list event * AbsoluteCanvas) : result A :=
  fst (fst r).
Definition trace {A} (r : result A * list event * AbsoluteCanvas) : list event :=
  snd (fst r).
Definition final {A} (r : result A * list event * AbsoluteCanvas) : AbsoluteCanvas :=
  snd r.

(** ** Observing runs *)

Definition is_raised (ev : event) : bool :=
  match ev with ERaised _ => true | _ => false end.
Definition is_calc (ev : event) : bool :=
  match ev with ECalcScale _ => true | _ => false end.
Definition is_scale (ev : event) : bool :=
  match ev with EScale _ _ => true | _ => false end.
Definition is_input_canvas (ev : event) : bool :=
  match ev with EInputCanvas _ => true | _ => false end.
Definition is_output_canvas (ev : event) : bool :=
  match ev with EOutputCanvas _ => true | _ => false end.
Definition is_predict (ev : event) : bool :=
  match ev with EPredict _ => true | _ => false end.
Definition is_writeslice (ev : event) : bool :=
  match ev with EWriteSlice _ _ => true | _ => false end.
Definition is_flood (ev : event) : bool :=
  match ev with EFloodFill _ _ _ => true | _ => false end.
Definition is_remove (ev : event) : bool :=
  match ev with ERemoveSmall _ _ _ => true | _ => false end.
Definition is_write (ev : event) : bool :=
  match ev with EWrite _ _ _ _ _ => true | _ => false end.

Definition count (p : event -> bool) (t : list event) : nat :=
  length (filter p t).

(** Rank of an event in the order of [main]'s phases. *)
Definition rank (ev : event) : nat :=
  match ev with
  | ERead _ _ _ _ => 0 | ECalcScale _ => 1 | EScale _ _ => 2
  | ELoadModel _ => 3 | EInputCanvas _ => 4 | EOutputCanvas _ => 5
  | EPredict _ | EWriteSlice _ _ => 6
  | EFloodFill _ _ _ => 7 | ERemoveSmall _ _ _ => 8 | EWrite _ _ _ _ _ => 9
  | ERaised _ => 10
  end.

Definition NoRaise (t : list event) : Prop := forall e, ~ In (ERaised e) t.

Definition WF {A} (m : M A) : Prop :=
  forall s,
    match outcome (m s) with
    | Err e => exists t', trace (m s) = t' ++ [ERaised e] /\ NoRaise t'
    | _ => NoRaise (trace (m s))
    end.

Definition Emits {A} (P : event -> Prop) (m : M A) : Prop :=
  forall s, Forall (fun ev => P ev \/ is_raised ev = true) (trace (m s)).

Definition loop_event (ev : event) : Prop :=
  match ev with EPredict _ | EWriteSlice _ _ => True | _ => False end.

(** Lines 145-151: the union input bbox clipped to [0, image_shape). *)
Definition unet_box (a : args) (tiling : plan) : box :=
  mkBox (vmax origin (bstart (getInputVolume tiling)))
        (vmin (image_shape a) (bend (getInputVolume tiling))).

Definition plan_of (a : args) : plan_outcome :=
  UnetTiling3D (image_shape a) (mkBox (start_coord a) (end_coord a))
    (model_input_shape a) (model_output_shape a).

(** ** Example inputs *)

Definition ex_dummy : AbsoluteCanvas :=
  mkCanvas origin (mkBox origin origin) (mkArr origin (fun _ => 0%R)).

(** A two-voxel volume [(2,1,1)] segmented from the origin to [end_] with a
    [(1,1,1)] model, no post-processing. *)
Definition ex_args (end_ : V3) (scale : option R) (binary : bool) (batch : Z)
    : args :=
  mkArgs "in" "/s0" "/s0" "model" scale "out"
    origin end_ (mkV3 1 1 1) (mkV3 1 1 1) (mkV3 2 1 1)
    false binary batch (98 / 100)%R (2 / 10)%R (2 / 10)%R 2000.

(** Collaborators: the reader returns ones of the requested extent, scaling
    multiplies by the factor, the model answers [classes] zero scores per
    voxel for every input, [pred_ok] decides which batches it answers. *)
Definition ex_env (classes : nat) (pred_ok : list arr -> bool) : env :=
  mkEnv
    (fun _ _ s e => Ok (mkArr (vsub e s) (fun _ => 1%R)))
    (fun _ => Ok 1%R)
    (fun x f => Ok (mkArr (ashape x) (fun p => f * aat x p)%R))
    (fun _ => Ok tt)
    (fun inp => if pred_ok inp
                then Ok (map (fun _ => mkParr (mkV3 1 1 1) classes
                                         (fun _ _ => 0%R)) inp)
                else Err (ExternalError 0))
    (fun x _ _ => Ok x)
    (fun x _ _ => Ok x)
    (fun _ _ _ _ _ => Ok tt).

(** The tile indices of the [writeSlice] calls of a trace, in call order. *)
Definition ws_indices (t : list event) : list Z :=
  flat_map (fun ev => match ev with EWriteSlice i _ => [i] | _ => [] end) t.

(** Three voxels [(3,1,1)], batches of two tiles: the batch [[t0; t1]] and
    the batch [[t2]]. *)
Definition ex_args_mix : args :=
  mkArgs "in" "/s0" "/s0" "model" (Some 1%R) "out"
    origin (mkV3 3 1 1) (mkV3 1 1 1) (mkV3 1 1 1) (mkV3 3 1 1)
    false false 2 (98 / 100)%R (2 / 10)%R (2 / 10)%R 2000.

(** A model that answers batches of two windows and fails on any other. *)
Definition ex_env_mix : env :=
  ex_env 2 (fun inp => Nat.eqb (length inp) 2).

(** The defaults of [ex_args] with [--with_post_processing]. *)
Definition ex_args_post : args :=
  mkArgs "in" "/s0" "/s0" "model" (Some 2%R) "out"
    origin (mkV3 2 1 1) (mkV3 1 1 1) (mkV3 1 1 1) (mkV3 2 1 1)
    true false 1 (98 / 100)%R (2 / 10)%R (2 / 10)%R 2000.

(** The model inputs of a trace, one per [unet.predict] call, in order. *)
Definition pred_inputs (t : list event) : list (list arr) :=
  flat_map (fun ev => match ev with EPredict inp => [inp] | _ => [] end) t.

(** The windows of a trace's [writeSlice] calls, in call order. *)
Definition ws_data (t : list event) : list arr :=
  flat_map (fun ev => match ev with EWriteSlice _ d => [d] | _ => [] end) t.

(** The reduced tiles of the model calls of a trace, in call order: for
    each [unet.predict] call whose answer and whose class-axis reduction
    succeed, the reduced batch. *)
Definition pred_reduced (E : env) (as_binary : bool) (t : list event)
    : list arr :=
  flat_map (fun ev =>
    match ev with
    | EPredict inp =>
        match predict E inp with
        | Ok outs =>
            match reduce_batch as_binary outs with Ok red => red | _ => [] end
        | _ => []
        end
    | _ => []
    end) t.

(** The invariant of [argmax]'s fold after scanning classes [0 .. m-1]
    with current best [b]. *)
Definition argmax_inv (score : nat -> R) (m b : nat) : Prop :=
  (b < m)%nat /\ (forall k, (k < m)%nat -> score k <= score b)%R /\
  (forall k, (k < b)%nat -> score k < score b)%R.

(** The collaborators of [ex_env 2] with a model that answers every batch
    with an empty batch of outputs. *)
Definition ex_env_empty : env :=
  let E := ex_env 2 (fun _ => true) in
  mkEnv (read_n5_block E) (calculateScalingFactor E) (scaleImage E)
    (load_model E) (fun _ => Ok []) (clean_floodFill E)
    (removeSmallObjects E) (write_n5_block E).

(** * Proofs *)

Lemma get_vmap2 a f u v : get a (vmap2 f u v) = f (get a u) (get a v).
Proof. destruct a; reflexivity. Qed.


Lemma in_box_axes p b :
  in_box p b = true <->
  (forall a, get a (bstart b) <= get a p < get a (bend b)).
Proof.
  unfold in_box, in_range. rewrite !andb_true_iff, !Z.leb_le, !Z.ltb_lt.
  split.
  - intros [[[? ?] [? ?]] [? ?]] a; destruct a; simpl; lia.
  - intros H. pose proof (H AX); pose proof (H AY); pose proof (H AZ).
    simpl in *. lia.
Qed.

Lemma in_box_inter p b1 b2 :
  in_box p (box_inter b1 b2) = in_box p b1 && in_box p b2.
Proof.
  apply eq_true_iff_eq. rewrite andb_true_iff, !in_box_axes.
  cbn [box_inter bstart bend]. unfold vmax, vmin.
  split.
  - intros H; split; intros a; specialize (H a);
      rewrite !get_vmap2 in H; lia.
  - intros [H1 H2] a; specialize (H1 a); specialize (H2 a);
      rewrite !get_vmap2; lia.
Qed.

(** ** Facts about the tile grid *)

Section AxisStarts.

Variable stride : Z.
Hypothesis stride_pos : 0 < stride.

Lemma axis_starts_In fuel s e l :
  axis_starts fuel s e stride = Some l ->
  forall a, In a l <-> s <= a < e /\ exists k, 0 <= k /\ a = s + k * stride.
Proof.
  revert s l; induction fuel as [|f IH]; intros s l H a; simpl in H.
  - destruct (Z.ltb_spec s e); [discriminate|]. injection H as <-.
    simpl. split; [tauto|]. intros [? _]; lia.
  - destruct (Z.ltb_spec s e) as [Hse|Hse].
    + destruct (axis_starts f (s + stride) e stride) as [l'|] eqn:E;
        [|discriminate].
      injection H as <-. simpl. rewrite (IH _ _ E a). split.
      * intros [<- | [Ha [k [Hk ->]]]].
        -- split; [lia|]. exists 0; lia.
        -- split; [lia|]. exists (k + 1); lia.
      * intros [Ha [k [Hk ->]]].
        destruct (Z.eq_dec k 0) as [->|Hk0]; [left; lia|].
        right. split; [nia|]. exists (k - 1); lia.
    + injection H as <-. simpl. split; [tauto|]. intros [? _]; lia.
Qed.

Lemma axis_starts_NoDup fuel s e l :
  axis_starts fuel s e stride = Some l -> NoDup l.
Proof.
  revert s l; induction fuel as [|f IH]; intros s l H; simpl in H.
  - destruct (s <? e); [discriminate|]. injection H as <-. constructor.
  - destruct (s <? e).
    + destruct (axis_starts f (s + stride) e stride) as [l'|] eqn:E;
        [|discriminate].
      injection H as <-. constructor; [|eapply IH; eauto].
      rewrite (axis_starts_In _ _ _ _ E). lia.
    + injection H as <-. constructor.
Qed.

(** Two different starts of one axis lie at least one stride apart. *)
Lemma axis_starts_apart fuel s e l a b :
  axis_starts fuel s e stride = Some l -> In a l -> In b l -> a <> b ->
  a + stride <= b \/ b + stride <= a.
Proof.
  intros H Ha Hb Hab.
  apply (axis_starts_In _ _ _ _ H) in Ha as [_ [k [Hk ->]]].
  apply (axis_starts_In _ _ _ _ H) in Hb as [_ [k' [Hk' ->]]].
  destruct (Z.lt_total k k') as [Hlt|[Heq|Hlt]]; [left|subst; lia|right]; nia.
Qed.

(** Every coordinate of [[s, e)] falls in the window of some start. *)
Lemma axis_starts_cover fuel s e l q :
  axis_starts fuel s e stride = Some l -> s <= q < e ->
  exists a, In a l /\ a <= q < a + stride.
Proof.
  intros H Hq. exists (s + (q - s) / stride * stride).
  rewrite (axis_starts_In _ _ _ _ H).
  pose proof (Z.mul_div_le (q - s) stride stride_pos).
  pose proof (Z.mod_pos_bound (q - s) stride stride_pos).
  pose proof (Z_div_mod_eq_full (q - s) stride).
  pose proof (Z.div_pos (q - s) stride ltac:(lia) stride_pos).
  split; [split; [nia|] |]; [exists ((q - s) / stride); lia | nia].
Qed.

End AxisStarts.

Lemma in_grid v xs ys zs :
  In v (grid xs ys zs) <-> In (vx v) xs /\ In (vy v) ys /\ In (vz v) zs.
Proof.
  unfold grid. rewrite in_flat_map. split.
  - intros [x [Hx Hv]]. rewrite in_flat_map in Hv.
    destruct Hv as [y [Hy Hv]]. rewrite in_map_iff in Hv.
    destruct Hv as [z [<- Hz]]. simpl. tauto.
  - destruct v as [x y z]; simpl; intros [Hx [Hy Hz]].
    exists x; split; [assumption|]. rewrite in_flat_map.
    exists y; split; [assumption|]. rewrite in_map_iff. eauto.
Qed.

Lemma map_mkV3_NoDup x y zs :
  NoDup zs -> NoDup (map (fun z => mkV3 x y z) zs).
Proof.
  induction 1 as [|z zs Hz Hzs IH]; simpl; constructor; [|assumption].
  rewrite in_map_iff. intros [z' [E Hz']]. injection E as ->. contradiction.
Qed.

Lemma grid_NoDup xs ys zs :
  NoDup xs -> NoDup ys -> NoDup zs -> NoDup (grid xs ys zs).
Proof.
  intros Hx Hy Hz. unfold grid. induction Hx as [|x xs Hx Hxs IHx];
    simpl; [constructor|].
  apply NoDup_app; [|assumption|].
  - clear IHx Hx. induction Hy as [|y ys Hy Hys IHy]; simpl; [constructor|].
    apply NoDup_app; [|assumption|].
    + apply map_mkV3_NoDup; assumption.
    + intros v Hv1 Hv2. rewrite in_map_iff in Hv1.
      destruct Hv1 as [z [<- _]]. rewrite in_flat_map in Hv2.
      destruct Hv2 as [y' [Hy' Hv2]]. rewrite in_map_iff in Hv2.
      destruct Hv2 as [z' [E _]]. injection E; intros; subst; auto.
  - intros v Hv1 Hv2. rewrite in_flat_map in Hv2.
    destruct Hv2 as [x' [Hx' Hv2]].
    rewrite in_flat_map in Hv1, Hv2.
    destruct Hv1 as [y [_ Hv1]]; destruct Hv2 as [y' [_ Hv2]].
    rewrite in_map_iff in Hv1, Hv2.
    destruct Hv1 as [z [<- _]]; destruct Hv2 as [z' [E _]].
    injection E; intros; subst; auto.
Qed.

Lemma enumerate_tiles_In g target mis mos i ss t :
  In t (enumerate_tiles g target mis mos i ss) ->
  exists j s, In s ss /\ t = make_tile g target mis mos j s.
Proof.
  revert i; induction ss as [|s ss IH]; intros i H; simpl in H; [contradiction|].
  destruct H as [<-|H].
  - exists i, s; simpl; auto.
  - destruct (IH _ H) as [j [s' [Hs ->]]]. exists j, s'; simpl; auto.
Qed.

Lemma enumerate_tiles_In_start g target mis mos i ss s :
  In s ss ->
  exists j, In (make_tile g target mis mos j s)
              (enumerate_tiles g target mis mos i ss).
Proof.
  revert i; induction ss as [|s' ss IH]; intros i H; simpl in H; [contradiction|].
  destruct H as [<-|H].
  - exists i; simpl; auto.
  - destruct (IH (S i) H) as [j Hj]. exists j; simpl; auto.
Qed.

Lemma enumerate_tiles_starts g target mis mos i ss :
  map (fun t => bstart (output_bbox t)) (enumerate_tiles g target mis mos i ss)
  = ss.
Proof.
  revert i; induction ss as [|s ss IH]; intros i; simpl; [reflexivity|].
  f_equal; apply IH.
Qed.

Lemma axis_starts_nonpos_stride fuel s e stride :
  stride <= 0 -> s < e -> axis_starts fuel s e stride = None.
Proof.
  revert s; induction fuel as [|f IH]; intros s Hst Hse; simpl;
    destruct (Z.ltb_spec s e); try lia; [reflexivity|].
  rewrite IH by lia. reflexivity.
Qed.

Lemma axis_tiling_stride_pos t0 t1 stride l :
  t0 < t1 -> axis_tiling t0 t1 stride = Some l -> 0 < stride.
Proof.
  intros H1 H2. destruct (Z.ltb_spec 0 stride); [assumption|].
  unfold axis_tiling in H2. rewrite axis_starts_nonpos_stride in H2 by lia.
  discriminate.
Qed.

(** What a successful [UnetTiling3D] consists of. *)
Lemma UnetTiling3D_Planned g target mis mos p :
  UnetTiling3D g target mis mos = Planned p ->
  exists xs ys zs,
    axis_tiling (vx (bstart target)) (vx (bend target)) (vx mos) = Some xs /\
    axis_tiling (vy (bstart target)) (vy (bend target)) (vy mos) = Some ys /\
    axis_tiling (vz (bstart target)) (vz (bend target)) (vz mos) = Some zs /\
    0 < vx mos /\ 0 < vy mos /\ 0 < vz mos /\
    tiles p = enumerate_tiles g target mis mos 0 (grid xs ys zs) /\
    target_region p = target.
Proof.
  unfold UnetTiling3D. intros H.
  destruct (axis_bad g target mis mos AX) eqn:Bx; [discriminate|].
  destruct (axis_bad g target mis mos AY) eqn:By; [discriminate|].
  destruct (axis_bad g target mis mos AZ) eqn:Bz; [discriminate|].
  unfold axis_bad in Bx, By, Bz. simpl in Bx, By, Bz.
  rewrite !orb_false_iff, Z.ltb_ge, !Z.leb_gt in Bx, By, Bz.
  destruct (axis_tiling _ _ (vx mos)) as [xs|] eqn:Ex; [|discriminate].
  destruct (axis_tiling _ _ (vy mos)) as [ys|] eqn:Ey; [|discriminate].
  destruct (axis_tiling _ _ (vz mos)) as [zs|] eqn:Ez; [|discriminate].
  destruct (union_of _) eqn:U; [|discriminate].
  injection H as <-. exists xs, ys, zs.
  repeat split; try assumption;
    eapply axis_tiling_stride_pos; eauto; lia.
Qed.

(** ** C1: the valid output windows tile the target region *)

(** C1: for every plan that [UnetTiling3D] builds (all model shapes with
    [model_output_shape <= model_input_shape], a non-empty target region
    meeting the volume), the union of the tiles' [valid_output_bbox] is
    exactly [target_region ∩ [0, global_shape)], and the
    [valid_output_bbox] of two distinct tiles share no voxel. *)
Theorem UnetTiling3D_valid_partition (g : V3) (target : box) (mis mos : V3)
    (p : plan) :
  UnetTiling3D g target mis mos = Planned p ->
  (forall q,
     (exists t, In t (tiles p) /\ in_box q (valid_output_bbox t) = true) <->
     in_box q (box_inter target (mkBox origin g)) = true) /\
  (forall i j ti tj q,
     i <> j -> nth_error (tiles p) i = Some ti ->
     nth_error (tiles p) j = Some tj ->
     ~ (in_box q (valid_output_bbox ti) = true /\
        in_box q (valid_output_bbox tj) = true)).
Proof.
  intros H.
  destruct (UnetTiling3D_Planned _ _ _ _ _ H)
    as [xs [ys [zs [Ex [Ey [Ez [Px [Py [Pz [Ht _]]]]]]]]]].
  rewrite Ht. clear H Ht. unfold axis_tiling in Ex, Ey, Ez. split.
  - intros q. split.
    + intros [t [Hin Hq]].
      destruct (enumerate_tiles_In _ _ _ _ _ _ _ Hin) as [j [s [_ ->]]].
      simpl in Hq. rewrite !in_box_inter in Hq. rewrite in_box_inter.
      apply andb_true_iff in Hq as [Hq Hg]. apply andb_true_iff in Hq as [_ Hq].
      rewrite Hq, Hg. reflexivity.
    + intros Hq. rewrite in_box_inter in Hq.
      apply andb_true_iff in Hq as [Hq Hg].
      pose proof Hq as Hq'. rewrite in_box_axes in Hq'.
      destruct (axis_starts_cover _ Px _ _ _ _ (vx q) Ex (Hq' AX))
        as [a [Ha Haq]].
      destruct (axis_starts_cover _ Py _ _ _ _ (vy q) Ey (Hq' AY))
        as [b [Hb Hbq]].
      destruct (axis_starts_cover _ Pz _ _ _ _ (vz q) Ez (Hq' AZ))
        as [c [Hc Hcq]].
      assert (Hs : In (mkV3 a b c) (grid xs ys zs))
        by (rewrite in_grid; simpl; auto).
      destruct (enumerate_tiles_In_start g target mis mos 0 _ _ Hs) as [j Hj].
      eexists; split; [exact Hj|]. simpl. rewrite !in_box_inter, Hq, Hg.
      rewrite andb_true_r, andb_true_r. rewrite in_box_axes.
      intros ax; destruct ax; simpl; lia.
  - intros i j ti tj q Hij Hi Hj [Hqi Hqj].
    pose proof (enumerate_tiles_starts g target mis mos 0 (grid xs ys zs))
      as Hst.
    assert (ND : NoDup (grid xs ys zs))
      by (apply grid_NoDup; [eapply (axis_starts_NoDup _ Px)
          | eapply (axis_starts_NoDup _ Py) | eapply (axis_starts_NoDup _ Pz)];
          eauto).
    rewrite <- Hst in ND. rewrite NoDup_nth_error in ND.
    assert (Hne : bstart (output_bbox ti) <> bstart (output_bbox tj)).
    { intros E. apply Hij. apply ND.
      - rewrite length_map. apply nth_error_Some. congruence.
      - rewrite !nth_error_map, Hi, Hj. simpl. congruence. }
    apply nth_error_In in Hi, Hj.
    destruct (enumerate_tiles_In _ _ _ _ _ _ _ Hi) as [i' [si [Hsi ->]]].
    destruct (enumerate_tiles_In _ _ _ _ _ _ _ Hj) as [j' [sj [Hsj ->]]].
    simpl in Hne, Hqi, Hqj. rewrite !in_box_inter in Hqi, Hqj.
    apply andb_true_iff in Hqi as [Hqi _]; apply andb_true_iff in Hqi as [Hqi _].
    apply andb_true_iff in Hqj as [Hqj _]; apply andb_true_iff in Hqj as [Hqj _].
    rewrite in_box_axes in Hqi, Hqj. simpl in Hqi, Hqj.
    rewrite in_grid in Hsi, Hsj.
    destruct si as [x1 y1 z1], sj as [x2 y2 z2]. simpl in *.
    destruct (Z.eq_dec x1 x2) as [Ex'|Nx].
    + destruct (Z.eq_dec y1 y2) as [Ey'|Ny].
      * destruct (Z.eq_dec z1 z2) as [Ez'|Nz]; [congruence|].
        pose proof (Hqi AZ); pose proof (Hqj AZ); simpl in *.
        destruct (axis_starts_apart _ Pz _ _ _ _ _ _ Ez
                    (proj2 (proj2 Hsi)) (proj2 (proj2 Hsj)) Nz); lia.
      * pose proof (Hqi AY); pose proof (Hqj AY); simpl in *.
        destruct (axis_starts_apart _ Py _ _ _ _ _ _ Ey
                    (proj1 (proj2 Hsi)) (proj1 (proj2 Hsj)) Ny); lia.
    + pose proof (Hqi AX); pose proof (Hqj AX); simpl in *.
      destruct (axis_starts_apart _ Px _ _ _ _ _ _ Ex
                  (proj1 Hsi) (proj1 Hsj) Nx); lia.
Qed.

(** ** Flood fill facts *)

Lemma UnetTiling3D_valid_partition_witness :
  exists p,
    UnetTiling3D (mkV3 400 400 400) (mkBox (mkV3 100 100 100) (mkV3 250 250 250))
      (mkV3 220 220 220) (mkV3 132 132 132) = Planned p /\
    length (tiles p) = 8%nat /\
    (forall q,
       (exists t, In t (tiles p) /\ in_box q (valid_output_bbox t) = true) <->
       in_box q (box_inter (mkBox (mkV3 100 100 100) (mkV3 250 250 250))
                   (mkBox origin (mkV3 400 400 400))) = true).
Proof.
  eexists. split; [reflexivity|]. split; [vm_compute; reflexivity|].
  destruct (UnetTiling3D_valid_partition (mkV3 400 400 400)
              (mkBox (mkV3 100 100 100) (mkV3 250 250 250))
              (mkV3 220 220 220) (mkV3 132 132 132) _ eq_refl) as [H _].
  exact H.
Defined.

Module FloodFillFacts.
Import FloodFill.

Lemma grow_in_bounds low v S :
  (forall p, S p = true -> in_bounds v p = true) ->
  forall p, grow low v S p = true -> in_bounds v p = true.
Proof.
  intros HS p. unfold grow. rewrite orb_true_iff, !andb_true_iff.
  intros [H|[[H _] _]]; auto.
Qed.

Lemma iterate_in_bounds low v n S :
  (forall p, S p = true -> in_bounds v p = true) ->
  forall p, iterate n (grow low v) S p = true -> in_bounds v p = true.
Proof.
  revert S; induction n as [|n IH]; intros S HS; simpl; [exact HS|].
  apply IH. apply grow_in_bounds; exact HS.
Qed.

Lemma reached_in_bounds high low v p :
  reached high low v p = true -> in_bounds v p = true.
Proof.
  apply iterate_in_bounds. intros q. unfold seeds.
  rewrite andb_true_iff. tauto.
Qed.

Lemma grow_ext low v S S' :
  (forall p, S p = S' p) -> forall p, grow low v S p = grow low v S' p.
Proof.
  intros E p. unfold grow. rewrite E.
  assert (existsb S (neighbours p) = existsb S' (neighbours p)) as ->;
    [|reflexivity].
  induction (neighbours p) as [|x l IH]; simpl; [reflexivity|].
  rewrite E, IH. reflexivity.
Qed.

(** A set that a growth round leaves unchanged is a fixpoint of all
    further rounds. *)
Lemma iterate_fixpoint low v n S R :
  (forall p, S p = R p) -> (forall p, grow low v R p = R p) ->
  forall p, iterate n (grow low v) S p = R p.
Proof.
  revert S; induction n as [|n IH]; intros S HS HR; simpl; [exact HS|].
  apply IH; [|exact HR]. intros p. rewrite (grow_ext _ _ _ _ HS). apply HR.
Qed.

(** C7 (as stated): idempotence fails for a high threshold above 1.  On a
    one-voxel volume of value 3 with [high = 2], [low = 1/2] the first pass
    marks the voxel (3 >= 2) and the second pass clears it (1 < 2). *)
Lemma clean_floodFill_twice_differs :
  let v := mkVol (mkV3 1 1 1) (fun _ => 3%Q) in
  vat (clean_floodFill 2 (1 # 2) (clean_floodFill 2 (1 # 2) v)) origin
  <> vat (clean_floodFill 2 (1 # 2) v) origin.
Proof. vm_compute. discriminate. Qed.

(** C7 (amended): for thresholds [0 < low] and [0 < high <= 1] (the
    defaults 0.98 / 0.2 among them), applying the hysteresis flood fill
    twice to any 3-D volume yields the same volume (shape and every voxel)
    as applying it once. *)
Theorem clean_floodFill_idempotent (high low : Q) (v : vol) :
  (0 < low)%Q -> (0 < high <= 1)%Q ->
  vshape (clean_floodFill high low (clean_floodFill high low v))
    = vshape (clean_floodFill high low v) /\
  forall p,
    vat (clean_floodFill high low (clean_floodFill high low v)) p
    = vat (clean_floodFill high low v) p.
Proof.
  intros Hlow [Hh0 Hh1]. split; [reflexivity|]. intros p.
  set (v1 := clean_floodFill high low v).
  assert (E : forall q, reached high low v1 q = reached high low v q).
  { apply iterate_fixpoint.
    - intros q. unfold seeds. subst v1. unfold clean_floodFill, in_bounds.
      simpl. destruct (reached high low v q) eqn:R.
      + apply reached_in_bounds in R. unfold in_bounds in R. rewrite R.
        simpl. apply Qle_bool_iff. exact Hh1.
      + apply andb_false_intro2. destruct (Qle_bool high 0) eqn:Q0; [|reflexivity].
        apply Qle_bool_iff in Q0. exfalso. apply (Qlt_not_le _ _ Hh0 Q0).
    - intros q. unfold grow. subst v1. simpl.
      destruct (reached high low v q); [reflexivity|]. simpl.
      destruct (Qle_bool low 0) eqn:Q0; [|rewrite andb_false_r; reflexivity].
      apply Qle_bool_iff in Q0. exfalso. apply (Qlt_not_le _ _ Hlow Q0). }
  subst v1. unfold clean_floodFill at 1. simpl. rewrite E. reflexivity.
Qed.

Lemma clean_floodFill_idempotent_witness :
  let v := mkVol (mkV3 3 1 1)
             (fun p => if (vx p =? 0)%Z then 99 # 100 else 3 # 10) in
  (0 < 1 # 5)%Q /\ (0 < 49 # 50 <= 1)%Q /\
  vat (clean_floodFill (49 # 50) (1 # 5)
         (clean_floodFill (49 # 50) (1 # 5) v)) (mkV3 2 0 0)
  = vat (clean_floodFill (49 # 50) (1 # 5) v) (mkV3 2 0 0).
Proof.
  intros v. split; [reflexivity|]. split; [split; [reflexivity|unfold Qle; simpl; lia]|].
  apply (clean_floodFill_idempotent (49 # 50) (1 # 5) v);
    [reflexivity|split; [reflexivity|unfold Qle; simpl; lia]].
Defined.

End FloodFillFacts.

(** ** Runs of the orchestrator *)

Lemma count_app p t1 t2 : count p (t1 ++ t2) = (count p t1 + count p t2)%nat.
Proof. unfold count. rewrite filter_app, length_app. reflexivity. Qed.

Lemma count_cons p ev t :
  count p (ev :: t) = ((if p ev then 1 else 0) + count p t)%nat.
Proof. unfold count. simpl. destruct (p ev); reflexivity. Qed.

Lemma count_nil p : count p [] = 0%nat.
Proof. reflexivity. Qed.

Lemma count_zero p t : (forall ev, In ev t -> p ev = false) -> count p t = 0%nat.
Proof.
  intros H. unfold count. induction t as [|ev t IH]; simpl; [reflexivity|].
  rewrite H by (left; reflexivity). apply IH. intros; apply H; right; auto.
Qed.

Ltac run_step :=
  match goal with
  | |- context [match ?X with Ok _ => _ | Err _ => _ | Hang => _ end] =>
      let E := fresh "E" in destruct X eqn:E
  | |- context [match ?X with Some _ => _ | None => _ end] =>
      let E := fresh "E" in destruct X eqn:E
  | |- context [match ?X with
                | Planned _ => _ | PlanConfigurationError => _
                | PlanNoTermination => _ end] =>
      let E := fresh "E" in destruct X eqn:E
  end.

Ltac run_unfold :=
  cbv beta iota zeta delta [bind ret emit call lift raise hang get_mask
    put_mask trace outcome final fst snd app].

Lemma setup_ranks E a s :
  Forall (fun ev => rank ev <= 5 \/ is_raised ev = true)%nat
    (trace (setup E a s)).
Proof.
  unfold setup. repeat (run_unfold; try run_step);
    repeat (apply Forall_cons; [simpl; first [left; lia | right; reflexivity]|]);
    apply Forall_nil.
Qed.

(** *** Exceptions: an [ERaised] event only ever ends a trace *)

Lemma NoRaise_app t1 t2 : NoRaise t1 -> NoRaise t2 -> NoRaise (t1 ++ t2).
Proof. intros H1 H2 e H. apply in_app_or in H as [H|H]; [eapply H1|eapply H2]; eauto. Qed.

Lemma NoRaise_nil : NoRaise [].
Proof. intros e H; inversion H. Qed.

Lemma WF_bind {A B} (m : M A) (f : A -> M B) :
  WF (m) -> (forall a, WF (f a)) -> WF (bind m f).
Proof.
  unfold WF, outcome, trace. intros Hm Hf s. specialize (Hm s).
  unfold bind. destruct (m s) as [[r t1] s1]. simpl in *.
  destruct r as [a|e|]; simpl; [|exact Hm|exact Hm].
  specialize (Hf a s1). destruct (f a s1) as [[r2 t2] s2]. simpl in *.
  destruct r2 as [b|e|].
  - apply NoRaise_app; assumption.
  - destruct Hf as [t' [-> Ht']]. exists (t1 ++ t'). split.
    + rewrite app_assoc. reflexivity.
    + apply NoRaise_app; assumption.
  - apply NoRaise_app; assumption.
Qed.

Lemma WF_ret {A} (a : A) : WF (ret a).
Proof. intros s. apply NoRaise_nil. Qed.

Lemma WF_emit ev : is_raised ev = false -> WF (emit ev).
Proof.
  intros H s e [He|[]]. subst. discriminate.
Qed.

Lemma WF_raise {A} e : WF (@raise A e).
Proof. intros s. exists []. split; [reflexivity|apply NoRaise_nil]. Qed.

Lemma WF_hang {A} : WF (@hang A).
Proof. intros s. apply NoRaise_nil. Qed.

Lemma WF_get : WF get_mask.
Proof. intros s. apply NoRaise_nil. Qed.

Lemma WF_put c : WF (put_mask c).
Proof. intros s. apply NoRaise_nil. Qed.

Lemma WF_lift {A} (r : result A) : WF (lift r).
Proof. destruct r; simpl; auto using WF_ret, WF_raise, WF_hang. Qed.

Lemma WF_call {A} ev (r : result A) : is_raised ev = false -> WF (call ev r).
Proof. intros H. apply WF_bind; [apply WF_emit, H|intros; apply WF_lift]. Qed.

Ltac wf_tac :=
  repeat first
    [ apply WF_bind; intros
    | apply WF_ret | apply WF_raise | apply WF_hang | apply WF_get
    | apply WF_put | apply WF_lift
    | apply WF_emit; reflexivity
    | apply WF_call; reflexivity
    | match goal with
      | |- WF (match ?X with _ => _ end) => destruct X
      | |- WF (if ?X then _ else _) => destruct X
      | p : (_ * _)%type |- _ => destruct p
      end ].

Lemma WF_write_batch tiling tile ds : WF (write_batch tiling tile ds).
Proof.
  revert tile; induction ds as [|d ds IH]; intros tile; simpl; wf_tac; apply IH.
Qed.

Lemma WF_predict_loop E a tiling n tile batches :
  WF (predict_loop E a tiling n tile batches).
Proof.
  revert tile; induction batches as [|b bs IH]; intros tile; simpl;
    wf_tac; auto using WF_write_batch.
Qed.

Lemma WF_setup E a : WF (setup E a).
Proof. unfold setup. wf_tac. Qed.

Lemma WF_post_processing E a : WF (post_processing E a).
Proof. unfold post_processing. wf_tac. Qed.

Lemma WF_write_result E a : WF (write_result E a).
Proof. unfold write_result. wf_tac. Qed.

Lemma WF_main E a : WF (main E a).
Proof.
  unfold main. wf_tac;
    auto using WF_setup, WF_predict_loop, WF_post_processing, WF_write_result.
Qed.

(** *** Which events a step emits *)

Lemma Emits_bind {A B} P (m : M A) (f : A -> M B) :
  Emits P m -> (forall a, Emits P (f a)) -> Emits P (bind m f).
Proof.
  unfold Emits, trace. intros Hm Hf s. specialize (Hm s). unfold bind.
  destruct (m s) as [[r t1] s1]. simpl in *.
  destruct r as [a|e|]; simpl; try exact Hm.
  specialize (Hf a s1). destruct (f a s1) as [[r2 t2] s2]. simpl in *.
  apply Forall_app; split; assumption.
Qed.

Lemma Emits_ret {A} P (a : A) : Emits P (ret a).
Proof. intros s. constructor. Qed.

Lemma Emits_emit (P : event -> Prop) ev : P ev -> Emits P (emit ev).
Proof. intros H s. unfold trace; simpl. constructor; [left; exact H|constructor]. Qed.

Lemma Emits_raise {A} P e : Emits P (@raise A e).
Proof. intros s. unfold trace; simpl. constructor; [right; reflexivity|constructor]. Qed.

Lemma Emits_hang {A} P : Emits P (@hang A).
Proof. intros s. constructor. Qed.

Lemma Emits_get P : Emits P get_mask.
Proof. intros s. constructor. Qed.

Lemma Emits_put P c : Emits P (put_mask c).
Proof. intros s. constructor. Qed.

Lemma Emits_lift {A} P (r : result A) : Emits P (lift r).
Proof. destruct r; simpl; auto using Emits_ret, Emits_raise, Emits_hang. Qed.

Lemma Emits_call {A} (P : event -> Prop) ev (r : result A) :
  P ev -> Emits P (call ev r).
Proof.
  intros H. apply Emits_bind; [apply Emits_emit, H|intros; apply Emits_lift].
Qed.

Ltac emits_tac :=
  repeat first
    [ apply Emits_bind; intros
    | apply Emits_ret | apply Emits_raise | apply Emits_hang | apply Emits_get
    | apply Emits_put | apply Emits_lift
    | apply Emits_emit; simpl
    | apply Emits_call; simpl
    | match goal with
      | |- Emits _ (match ?X with _ => _ end) => destruct X
      | |- Emits _ (if ?X then _ else _) => destruct X
      end ].

Lemma Emits_write_batch tiling tile ds :
  Emits loop_event (write_batch tiling tile ds).
Proof.
  revert tile; induction ds as [|d ds IH]; intros tile; simpl; emits_tac;
    auto.
Qed.

Lemma Emits_predict_loop E a tiling n tile batches :
  Emits loop_event (predict_loop E a tiling n tile batches).
Proof.
  revert tile; induction batches as [|b bs IH]; intros tile; simpl;
    emits_tac; auto using Emits_write_batch.
Qed.

(** The post-processing step, evaluated. *)
Lemma post_processing_run E a s :
  post_processing E a s =
  if with_post_processing a then
    match clean_floodFill E (image s) (high_threshold a) (low_threshold a) with
    | Ok y =>
        match removeSmallObjects E y (small_region_probability_threshold a)
                (small_region_size_threshold a) with
        | Ok w =>
            (Ok tt, [EFloodFill (image s) (high_threshold a) (low_threshold a);
                     ERemoveSmall y (small_region_probability_threshold a)
                       (small_region_size_threshold a)],
             set_image (set_image s y) w)
        | Err e =>
            (Err e, [EFloodFill (image s) (high_threshold a) (low_threshold a);
                     ERemoveSmall y (small_region_probability_threshold a)
                       (small_region_size_threshold a); ERaised e],
             set_image s y)
        | Hang =>
            (Hang, [EFloodFill (image s) (high_threshold a) (low_threshold a);
                    ERemoveSmall y (small_region_probability_threshold a)
                      (small_region_size_threshold a)],
             set_image s y)
        end
    | Err e =>
        (Err e, [EFloodFill (image s) (high_threshold a) (low_threshold a);
                 ERaised e], s)
    | Hang =>
        (Hang, [EFloodFill (image s) (high_threshold a) (low_threshold a)], s)
    end
  else (Ok tt, [], s).
Proof.
  unfold post_processing. destruct (with_post_processing a); [|reflexivity].
  run_unfold. simpl.
  destruct (clean_floodFill E _ _ _) as [y|e|]; simpl; [|reflexivity|reflexivity].
  destruct (removeSmallObjects E _ _ _) as [w|e|]; reflexivity.
Qed.

(** The persistence step, evaluated. *)
Lemma write_result_run E a s :
  write_result E a s =
  let ev := EWrite (output_path a) (output_data_set a) (start_coord a)
              (end_coord a) (image s) in
  match write_n5_block E (output_path a) (output_data_set a) (start_coord a)
          (end_coord a) (image s) with
  | Ok u => (Ok u, [ev], s)
  | Err e => (Err e, [ev; ERaised e], s)
  | Hang => (Hang, [ev], s)
  end.
Proof.
  unfold write_result. run_unfold. simpl.
  destruct (write_n5_block E _ _ _ _ _); reflexivity.
Qed.

(** *** [main] as the sequence of its four phases *)

Lemma main_run E a s :
  main E a s =
  match setup E a s with
  | (Ok (tiling, batches), ts, s1) =>
      match predict_loop E a tiling (Z.of_nat (length (tiles tiling))) 0
              batches s1 with
      | (Ok _, tl, s2) =>
          match post_processing E a s2 with
          | (Ok _, tp, s3) =>
              match write_result E a s3 with
              | (r, tw, s4) => (r, ts ++ tl ++ tp ++ tw, s4)
              end
          | (Err e, tp, s3) => (Err e, ts ++ tl ++ tp, s3)
          | (Hang, tp, s3) => (Hang, ts ++ tl ++ tp, s3)
          end
      | (Err e, tl, s2) => (Err e, ts ++ tl, s2)
      | (Hang, tl, s2) => (Hang, ts ++ tl, s2)
      end
  | (Err e, ts, s1) => (Err e, ts, s1)
  | (Hang, ts, s1) => (Hang, ts, s1)
  end.
Proof.
  unfold main, bind. destruct (setup E a s) as [[[[tiling batches]|e|] ts] s1];
    [|reflexivity|reflexivity].
  destruct (predict_loop _ _ _ _ _ _ _) as [[[[]|e|] tl] s2];
    [|reflexivity|reflexivity].
  destruct (post_processing E a s2) as [[[[]|e|] tp] s3];
    [|reflexivity|reflexivity].
  destruct (write_result E a s3) as [[r tw] s4]. reflexivity.
Qed.

Lemma Forall_or_raised_app (P : event -> Prop) t1 t2 :
  Forall (fun ev => P ev \/ is_raised ev = true) t1 ->
  Forall (fun ev => P ev \/ is_raised ev = true) t2 ->
  Forall (fun ev => P ev \/ is_raised ev = true) (t1 ++ t2).
Proof. intros; apply Forall_app; auto. Qed.

(** After the setup, only loop, post-processing and persistence events. *)
Lemma main_after_setup E a s :
  exists rest,
    trace (main E a s) = trace (setup E a s) ++ rest /\
    Forall (fun ev => (6 <= rank ev)%nat \/ is_raised ev = true) rest.
Proof.
  rewrite main_run. unfold trace at 2.
  destruct (setup E a s) as [[[[tiling batches]|e|] ts] s1]; simpl;
    try (exists []; split; [rewrite app_nil_r; reflexivity|constructor]).
  pose proof (Emits_predict_loop E a tiling
                (Z.of_nat (length (tiles tiling))) 0 batches s1) as HL.
  unfold trace in HL.
  destruct (predict_loop _ _ _ _ _ _ _) as [[[[]|e|] tl] s2]; simpl in HL;
    assert (HL' : Forall (fun ev => (6 <= rank ev)%nat \/ is_raised ev = true) tl)
      by (eapply Forall_impl; [|exact HL]; intros [] [H|H]; simpl in *;
          auto; try contradiction);
    [|exists tl; auto|exists tl; auto].
  rewrite post_processing_run.
  destruct (with_post_processing a).
  - destruct (clean_floodFill E _ _ _) as [y|e|].
    + destruct (removeSmallObjects E _ _ _) as [w|e|].
      * rewrite write_result_run. simpl.
        destruct (write_n5_block E _ _ _ _ _);
          eexists; (split; [reflexivity|]);
          repeat (apply Forall_or_raised_app; [assumption|]);
          repeat constructor; simpl; auto.
      * eexists; (split; [reflexivity|]);
          repeat (apply Forall_or_raised_app; [assumption|]);
          repeat constructor; simpl; auto.
      * eexists; (split; [reflexivity|]);
          repeat (apply Forall_or_raised_app; [assumption|]);
          repeat constructor; simpl; auto.
    + eexists; (split; [reflexivity|]);
        repeat (apply Forall_or_raised_app; [assumption|]);
        repeat constructor; simpl; auto.
    + eexists; (split; [reflexivity|]);
        repeat (apply Forall_or_raised_app; [assumption|]);
        repeat constructor; simpl; auto.
  - rewrite write_result_run. simpl.
    destruct (write_n5_block E _ _ _ _ _);
      eexists; (split; [reflexivity|]);
      repeat (apply Forall_or_raised_app; [assumption|]);
      repeat constructor; simpl; auto.
Qed.

(** *** The setup phase *)


Lemma rest_no_setup_event (p : event -> bool) rest :
  Forall (fun ev => (6 <= rank ev)%nat \/ is_raised ev = true) rest ->
  (forall ev, p ev = true -> (rank ev <= 5)%nat) ->
  count p rest = 0%nat.
Proof.
  intros H Hp. apply count_zero. intros ev Hin.
  rewrite Forall_forall in H. destruct (H ev Hin) as [Hr|Hr].
  - destruct (p ev) eqn:Pe; [|reflexivity]. apply Hp in Pe. lia.
  - destruct (p ev) eqn:Pe; [|reflexivity]. apply Hp in Pe.
    destruct ev; simpl in *; discriminate || lia.
Qed.



(** ** C2: the bulk read and the input canvas *)




(** *** The prediction loop, evaluated *)

Lemma write_batch_nil tiling tile s :
  write_batch tiling tile [] s = (Ok tile, [], s).
Proof. reflexivity. Qed.

Lemma write_batch_cons tiling tile d rest s :
  write_batch tiling tile (d :: rest) s =
  match writeSlice tiling s tile d with
  | Ok c' =>
      match write_batch tiling (tile + 1) rest c' with
      | (r, t, s') => (r, EWriteSlice tile d :: t, s')
      end
  | Err e => (Err e, [EWriteSlice tile d; ERaised e], s)
  | Hang => (Hang, [EWriteSlice tile d], s)
  end.
Proof.
  simpl write_batch. run_unfold. simpl.
  destruct (writeSlice tiling s tile d) as [c'|e|]; simpl; [|reflexivity|reflexivity].
  destruct (write_batch tiling (tile + 1) rest c') as [[r t] s']. reflexivity.
Qed.

Lemma predict_loop_run E a tiling n tile batches s :
  predict_loop E a tiling n tile batches s =
  if tile <? n then
    match batches with
    | [] => (Err StopIteration, [ERaised StopIteration], s)
    | inp :: rest =>
        match predict E inp with
        | Ok outs =>
            match reduce_batch (as_binary_mask a) outs with
            | Ok red =>
                match write_batch tiling tile red s with
                | (Ok tile', tw, s1) =>
                    match predict_loop E a tiling n tile' rest s1 with
                    | (r, tr, s2) => (r, EPredict inp :: tw ++ tr, s2)
                    end
                | (Err e, tw, s1) => (Err e, EPredict inp :: tw, s1)
                | (Hang, tw, s1) => (Hang, EPredict inp :: tw, s1)
                end
            | Err e => (Err e, [EPredict inp; ERaised e], s)
            | Hang => (Hang, [EPredict inp], s)
            end
        | Err e => (Err e, [EPredict inp; ERaised e], s)
        | Hang => (Hang, [EPredict inp], s)
        end
    end
  else (Ok tt, [], s).
Proof.
  destruct batches as [|inp rest]; simpl predict_loop;
    destruct (tile <? n); try reflexivity.
  run_unfold. simpl.
  destruct (predict E inp) as [outs|e|]; simpl; [|reflexivity|reflexivity].
  destruct (reduce_batch _ outs) as [red|e|]; simpl; [|reflexivity|reflexivity].
  destruct (write_batch tiling tile red s) as [[[tile'|e|] tw] s1]; simpl;
    [|reflexivity|reflexivity].
  destruct (predict_loop E a tiling n tile' rest s1) as [[r tr] s2]. reflexivity.
Qed.

(** *** [writeSlice] *)

Lemma writeSlice_Ok_index p c i d c' :
  writeSlice p c i d = Ok c' -> 0 <= i < Z.of_nat (length (tiles p)).
Proof.
  unfold writeSlice. destruct (i <? 0) eqn:H1; simpl; [discriminate|].
  destruct (_ <=? i) eqn:H2; simpl; [discriminate|]. intros _. lia.
Qed.

(** A window that [writeSlice] does not reject with IndexError or
    ShapeError has the shape of the tile's output window. *)
Lemma writeSlice_shape p c i d :
  writeSlice p c i d <> Err IndexError -> writeSlice p c i d <> Err ShapeError ->
  exists t, nth_error (tiles p) (Z.to_nat i) = Some t /\
            ashape d = extent (output_bbox t).
Proof.
  unfold writeSlice. destruct (_ || _); [congruence|].
  destruct (nth_error (tiles p) (Z.to_nat i)) as [t|]; [|congruence].
  destruct (V3_eqb (ashape d) (extent (output_bbox t))) eqn:Hs; simpl;
    [|congruence].
  intros _ _. exists t. split; [reflexivity|].
  unfold V3_eqb in Hs. rewrite !andb_true_iff, !Z.eqb_eq in Hs.
  destruct (ashape d), (extent (output_bbox t)); simpl in *.
  destruct Hs as [[-> ->] ->]. reflexivity.
Qed.

Lemma make_tile_output_extent g target mis mos i s :
  extent (output_bbox (make_tile g target mis mos i s)) = mos.
Proof.
  destruct s, mos. unfold make_tile, extent, vsub, vadd, vmap2. simpl.
  f_equal; lia.
Qed.

Lemma UnetTiling3D_output_extent g target mis mos p t :
  UnetTiling3D g target mis mos = Planned p -> In t (tiles p) ->
  extent (output_bbox t) = mos.
Proof.
  intros H Hin.
  destruct (UnetTiling3D_Planned _ _ _ _ _ H)
    as [xs [ys [zs [_ [_ [_ [_ [_ [_ [Ht _]]]]]]]]]].
  rewrite Ht in Hin.
  destruct (enumerate_tiles_In _ _ _ _ _ _ _ Hin) as [j [s [_ ->]]].
  apply make_tile_output_extent.
Qed.

(** *** Tile indices of the [writeSlice] calls *)

Lemma ws_indices_app t1 t2 : ws_indices (t1 ++ t2) = ws_indices t1 ++ ws_indices t2.
Proof. unfold ws_indices. apply flat_map_app. Qed.

Lemma ws_indices_none t :
  Forall (fun ev => is_writeslice ev = false) t -> ws_indices t = [].
Proof. induction 1 as [|ev t H _ IH]; [reflexivity|]. destruct ev; simpl in *; auto; discriminate. Qed.

Lemma seq_map_succ tile k :
  tile :: map (fun j => tile + 1 + Z.of_nat j) (seq 0 k)
  = map (fun j => tile + Z.of_nat j) (seq 0 (S k)).
Proof.
  simpl. rewrite <- seq_shift, map_map. f_equal; [lia|].
  apply map_ext. intros j. lia.
Qed.

Lemma seq_map_app tile k1 k2 :
  map (fun j => tile + Z.of_nat j) (seq 0 k1) ++
  map (fun j => tile + Z.of_nat k1 + Z.of_nat j) (seq 0 k2)
  = map (fun j => tile + Z.of_nat j) (seq 0 (k1 + k2)).
Proof.
  revert tile. induction k1 as [|k1 IH]; intros tile.
  - simpl. apply map_ext. intros j. lia.
  - rewrite Nat.add_succ_l, <- (seq_map_succ tile k1),
      <- (seq_map_succ tile (k1 + k2)).
    simpl app. f_equal. rewrite <- (IH (tile + 1)).
    f_equal. apply map_ext. intros j. lia.
Qed.

Lemma write_batch_indices tiling tile ds s :
  exists k,
    ws_indices (trace (write_batch tiling tile ds s))
      = map (fun j => tile + Z.of_nat j) (seq 0 k) /\
    (k <= length ds)%nat /\
    forall tile', outcome (write_batch tiling tile ds s) = Ok tile' ->
      tile' = tile + Z.of_nat k /\
      forall j, (j < k)%nat -> 0 <= tile + Z.of_nat j < Z.of_nat (length (tiles tiling)).
Proof.
  revert tile s. induction ds as [|d rest IH]; intros tile s.
  - exists 0%nat. rewrite write_batch_nil. simpl. split; [reflexivity|].
    split; [lia|]. intros tile' H. injection H as <-. split; [lia|]. lia.
  - rewrite write_batch_cons.
    destruct (writeSlice tiling s tile d) as [c'|e|] eqn:W.
    + destruct (IH (tile + 1) c') as [k [Hk [Hle Hok]]].
      destruct (write_batch tiling (tile + 1) rest c') as [[r t] s'] eqn:Ew.
      exists (S k). unfold trace, outcome in *; simpl in *.
      rewrite Hk, seq_map_succ. split; [reflexivity|]. split; [lia|].
      intros tile' Hr. destruct (Hok tile' Hr) as [-> Hj]. split; [lia|].
      apply writeSlice_Ok_index in W.
      intros [|j] Hjk; [lia|]. specialize (Hj j ltac:(lia)). lia.
    + exists 1%nat. simpl. split; [f_equal; lia|]. split; [lia|]. discriminate.
    + exists 1%nat. simpl. split; [f_equal; lia|]. split; [lia|]. discriminate.
Qed.

Lemma predict_loop_indices E a tiling tile batches s :
  exists k,
    ws_indices (trace (predict_loop E a tiling (Z.of_nat (length (tiles tiling)))
                         tile batches s))
      = map (fun j => tile + Z.of_nat j) (seq 0 k) /\
    (outcome (predict_loop E a tiling (Z.of_nat (length (tiles tiling)))
                tile batches s) = Ok tt ->
     Z.of_nat (length (tiles tiling)) <= tile + Z.of_nat k /\
     forall j, (j < k)%nat -> tile + Z.of_nat j < Z.of_nat (length (tiles tiling))).
Proof.
  revert tile s. induction batches as [|inp rest IH]; intros tile s;
    rewrite predict_loop_run;
    destruct (tile <? Z.of_nat (length (tiles tiling))) eqn:Hlt;
    [exists 0%nat; split; [reflexivity|]; unfold outcome; simpl; discriminate
    | exists 0%nat; split; [reflexivity|]; intros _; apply Z.ltb_ge in Hlt;
      split; [lia|intros; lia]
    |
    | exists 0%nat; split; [reflexivity|]; intros _; apply Z.ltb_ge in Hlt;
      split; [lia|intros; lia]].
  destruct (predict E inp) as [outs|e|];
    try (exists 0%nat; split; [reflexivity|]; unfold outcome; simpl; discriminate).
  destruct (reduce_batch (as_binary_mask a) outs) as [red|e|];
    try (exists 0%nat; split; [reflexivity|]; unfold outcome; simpl; discriminate).
  destruct (write_batch_indices tiling tile red s) as [k1 [Hk1 [_ Hok1]]].
  destruct (write_batch tiling tile red s) as [[[tile'|e|] tw] s1] eqn:Ew;
    unfold trace, outcome in *; cbn [fst snd] in *.
  - destruct (Hok1 tile' eq_refl) as [-> Hj1].
    destruct (IH (tile + Z.of_nat k1) s1) as [k2 [Hk2 Hok2]].
    destruct (predict_loop _ _ _ _ _ rest s1) as [[r tr] s2]; cbn [fst snd] in *.
    exists (k1 + k2)%nat.
    change (ws_indices (EPredict inp :: tw ++ tr)) with (ws_indices (tw ++ tr)).
    rewrite ws_indices_app, Hk1, Hk2, <- (seq_map_app tile k1 k2).
    split; [reflexivity|]. intros Hr. destruct (Hok2 Hr) as [Hn Hj2].
    split; [lia|]. intros j Hj.
    destruct (Nat.lt_ge_cases j k1) as [Hj'|Hj'].
    + specialize (Hj1 j Hj'). lia.
    + specialize (Hj2 (j - k1)%nat ltac:(lia)). lia.
  - exists k1. split; [exact Hk1|discriminate].
  - exists k1. split; [exact Hk1|discriminate].
Qed.

(** *** Which phases a run went through *)

Lemma count_Forall_zero (p : event -> bool) (P : event -> Prop) t :
  Forall (fun ev => P ev \/ is_raised ev = true) t ->
  (forall ev, P ev -> p ev = false) -> (forall e, p (ERaised e) = false) ->
  count p t = 0%nat.
Proof.
  intros H HP HR. apply count_zero. intros ev Hin.
  rewrite Forall_forall in H. destruct (H ev Hin) as [X|X]; [auto|].
  destruct ev; try discriminate. apply HR.
Qed.

Lemma Emits_post_processing E a :
  Emits (fun ev => rank ev = 7%nat \/ rank ev = 8%nat) (post_processing E a).
Proof.
  intros s. rewrite post_processing_run.
  destruct (with_post_processing a); [|constructor].
  destruct (clean_floodFill E _ _ _) as [y|e|];
    [destruct (removeSmallObjects E _ _ _) as [w|e|]|..];
    unfold trace; simpl;
    repeat (apply Forall_cons; [simpl; first [left; left; reflexivity
                                             | left; right; reflexivity
                                             | right; reflexivity]|]);
    apply Forall_nil.
Qed.

Lemma setup_outcome_plan E a s tiling batches :
  outcome (setup E a s) = Ok (tiling, batches) -> plan_of a = Planned tiling.
Proof.
  unfold plan_of, setup. repeat (run_unfold; try run_step); simpl;
    try discriminate; intros H; injection H as <- <-; reflexivity.
Qed.

(** A run that reaches the persistence call went through the three phases
    before it, each completing normally. *)
Ltac ev_false :=
  first [intros [] ?; simpl in *; first [reflexivity | lia | tauto]
        | intros; reflexivity].

Lemma main_write_reached E a s :
  count is_write (trace (main E a s)) <> 0%nat ->
  exists tiling batches ts s1 tl s2 tp s3,
    setup E a s = (Ok (tiling, batches), ts, s1) /\
    predict_loop E a tiling (Z.of_nat (length (tiles tiling))) 0 batches s1
      = (Ok tt, tl, s2) /\
    post_processing E a s2 = (Ok tt, tp, s3) /\
    outcome (main E a s) = outcome (write_result E a s3) /\
    trace (main E a s) = ts ++ tl ++ tp ++ trace (write_result E a s3) /\
    final (main E a s) = s3.
Proof.
  pose proof (setup_ranks E a s) as HS.
  rewrite main_run.
  destruct (setup E a s) as [[[[tiling batches]|e|] ts] s1] eqn:Es;
    unfold trace in HS; simpl in HS;
    [| intros H; exfalso; apply H; unfold trace; simpl;
       apply (count_Forall_zero _ _ _ HS); ev_false..].
  pose proof (Emits_predict_loop E a tiling (Z.of_nat (length (tiles tiling)))
                0 batches s1) as HL.
  destruct (predict_loop _ _ _ _ _ _ s1) as [[[[]|e|] tl] s2] eqn:El;
    unfold trace in HL; simpl in HL;
    [| intros H; exfalso; apply H; unfold trace; simpl; rewrite count_app;
       rewrite (count_Forall_zero _ _ _ HS) by ev_false;
       apply (count_Forall_zero _ _ _ HL); ev_false..].
  pose proof (Emits_post_processing E a s2) as HP.
  destruct (post_processing E a s2) as [[[[]|e|] tp] s3] eqn:Ep;
    unfold trace in HP; simpl in HP;
    [| intros H; exfalso; apply H; unfold trace; simpl; rewrite !count_app;
       rewrite (count_Forall_zero _ _ _ HS) by ev_false;
       rewrite (count_Forall_zero _ _ _ HL) by ev_false;
       apply (count_Forall_zero _ _ _ HP); ev_false..].
  intros _. exists tiling, batches, ts, s1, tl, s2, tp, s3.
  pose proof (write_result_run E a s3) as Ew.
  destruct (write_result E a s3) as [[r tw] s4]. simpl in Ew.
  repeat split; try assumption; try reflexivity.
  destruct (write_n5_block E _ _ _ _ _); injection Ew as _ _ ->; reflexivity.
Qed.

Lemma Emits_write_result E a :
  Emits (fun ev => rank ev = 9%nat) (write_result E a).
Proof.
  intros s. rewrite write_result_run. simpl.
  destruct (write_n5_block E _ _ _ _ _); unfold trace; simpl;
    repeat (apply Forall_cons; [simpl; first [left; reflexivity | right; reflexivity]|]);
    apply Forall_nil.
Qed.

Lemma ws_indices_none_of (P : event -> Prop) t :
  Forall (fun ev => P ev \/ is_raised ev = true) t ->
  (forall ev, P ev -> is_writeslice ev = false) -> ws_indices t = [].
Proof.
  intros H HP. apply ws_indices_none. eapply Forall_impl; [|exact H].
  intros ev [X|X]; [auto|destruct ev; try discriminate; reflexivity].
Qed.

(** The [writeSlice] calls of a run are those of its prediction loop. *)
Lemma main_ws_indices E a s :
  ws_indices (trace (main E a s)) =
  match setup E a s with
  | (Ok (tiling, batches), _, s1) =>
      ws_indices (trace (predict_loop E a tiling
                           (Z.of_nat (length (tiles tiling))) 0 batches s1))
  | _ => []
  end.
Proof.
  pose proof (setup_ranks E a s) as HS.
  rewrite main_run.
  destruct (setup E a s) as [[[[tiling batches]|e|] ts] s1];
    unfold trace in HS; simpl in HS;
    [|unfold trace; simpl; apply (ws_indices_none_of _ _ HS); ev_false..].
  assert (Hts : ws_indices ts = []) by (apply (ws_indices_none_of _ _ HS); ev_false).
  pose proof (Emits_predict_loop E a tiling (Z.of_nat (length (tiles tiling)))
                0 batches s1) as HL.
  destruct (predict_loop _ _ _ _ _ _ s1) as [[[[]|e|] tl] s2];
    unfold trace in HL |- *; simpl in HL |- *;
    [|rewrite ws_indices_app, Hts; reflexivity..].
  pose proof (Emits_post_processing E a s2) as HP.
  destruct (post_processing E a s2) as [[[[]|e|] tp] s3];
    unfold trace in HP; simpl in HP |- *;
    assert (Htp : ws_indices tp = []) by (apply (ws_indices_none_of _ _ HP); ev_false);
    [|rewrite !ws_indices_app, Hts, Htp, app_nil_r; reflexivity..].
  pose proof (Emits_write_result E a s3) as HW.
  destruct (write_result E a s3) as [[r tw] s4].
  unfold trace in HW; simpl in HW |- *.
  rewrite !ws_indices_app, Hts, Htp, (ws_indices_none_of _ _ HW) by ev_false.
  rewrite !app_nil_r. reflexivity.
Qed.

(** *** Nothing inside the loop hangs on its own *)

Lemma reduce_batch_not_hang b ts : reduce_batch b ts <> Hang.
Proof.
  induction ts as [|t ts IH]; simpl; [discriminate|].
  destruct (reduce_tile b t) eqn:R;
    [destruct (reduce_batch b ts); [discriminate|discriminate|contradiction]
    |discriminate|].
  unfold reduce_tile in R. destruct b;
    [destruct (pclasses t =? 0)%nat|destruct (pclasses t <? 2)%nat]; discriminate.
Qed.

Lemma writeSlice_not_hang p c i d : writeSlice p c i d <> Hang.
Proof.
  unfold writeSlice, canvas_write.
  destruct (_ || _); [discriminate|].
  destruct (nth_error _ _); [|discriminate].
  destruct (negb _); [discriminate|].
  destruct (box_empty _); [discriminate|].
  destruct (negb _); discriminate.
Qed.

Lemma write_batch_not_hang tiling tile ds s :
  outcome (write_batch tiling tile ds s) <> Hang.
Proof.
  revert tile s. induction ds as [|d rest IH]; intros tile s;
    [rewrite write_batch_nil; discriminate|].
  rewrite write_batch_cons.
  pose proof (writeSlice_not_hang tiling s tile d).
  destruct (writeSlice tiling s tile d) as [c'|e|]; [|discriminate|contradiction].
  specialize (IH (tile + 1) c').
  destruct (write_batch tiling (tile + 1) rest c') as [[r t] s']. exact IH.
Qed.

Lemma predict_loop_not_hang E a tiling n tile batches s :
  (forall inp, predict E inp <> Hang) ->
  outcome (predict_loop E a tiling n tile batches s) <> Hang.
Proof.
  intros HP. revert tile s. induction batches as [|inp rest IH]; intros tile s;
    rewrite predict_loop_run; destruct (tile <? n); try discriminate.
  pose proof (HP inp).
  destruct (predict E inp) as [outs|e|]; [|discriminate|contradiction].
  pose proof (reduce_batch_not_hang (as_binary_mask a) outs).
  destruct (reduce_batch _ outs) as [red|e|]; [|discriminate|contradiction].
  pose proof (write_batch_not_hang tiling tile red s) as HW.
  destruct (write_batch tiling tile red s) as [[[tile'|e|] tw] s1];
    [|discriminate|contradiction].
  specialize (IH tile' s1).
  destruct (predict_loop E a tiling n tile' rest s1) as [[r tr] s2]. exact IH.
Qed.

(** ** C9: the [writeSlice] calls of the prediction loop *)

(** C9 (as stated): the loop does not reach every tile, even though the
    tile generator yields one window per tile and the model answers a batch
    of [b] windows with [b] outputs.  With [unet_batch_size = 0] the batched
    dataset cannot be built: the run raises InvalidArgumentError and makes
    no [writeSlice] call, although the plan has two tiles. *)
Lemma main_writeslice_indices_counterexample :
  (forall inp outs, predict (ex_env 2 (fun _ => true)) inp = Ok outs ->
     length outs = length inp) /\
  (exists tiling,
     plan_of (ex_args (mkV3 2 1 1) (Some 2%R) false 0) = Planned tiling /\
     length (tiles tiling) = 2%nat /\
     length (getGeneratorFactory tiling ex_dummy) = 2%nat) /\
  ws_indices (trace (main (ex_env 2 (fun _ => true))
                       (ex_args (mkV3 2 1 1) (Some 2%R) false 0) ex_dummy)) = [] /\
  outcome (main (ex_env 2 (fun _ => true))
             (ex_args (mkV3 2 1 1) (Some 2%R) false 0) ex_dummy)
    = Err InvalidArgumentError.
Proof.
  split; [intros inp outs H; simpl in H; injection H as <-; apply length_map|].
  split; [eexists; split; [reflexivity|]; split; vm_compute; reflexivity|].
  split; vm_compute; reflexivity.
Qed.

(** C9 (amended): in every run the tile indices of the [writeSlice] calls
    are [0, 1, ..., k-1] in this order, for some [k]; a run that gets to the
    persistence write has called [writeSlice] exactly once for each tile
    index [0, ..., len(tiler)-1], in increasing order; and the prediction
    loop never fails to terminate unless a model call does. *)
Theorem main_writeslice_indices (E : env) (a : args) (s0 : AbsoluteCanvas) :
  (exists k, ws_indices (trace (main E a s0)) = map Z.of_nat (seq 0 k)) /\
  (forall tiling, plan_of a = Planned tiling ->
     count is_write (trace (main E a s0)) <> 0%nat ->
     ws_indices (trace (main E a s0))
       = map Z.of_nat (seq 0 (length (tiles tiling)))) /\
  ((forall inp, predict E inp <> Hang) ->
   forall tiling tile batches s,
     outcome (predict_loop E a tiling (Z.of_nat (length (tiles tiling)))
                tile batches s) <> Hang).
Proof.
  split; [|split].
  - rewrite main_ws_indices.
    destruct (setup E a s0) as [[[[tiling batches]|e|] ts] s1];
      [|exists 0%nat; reflexivity..].
    destruct (predict_loop_indices E a tiling 0 batches s1) as [k [Hk _]].
    exists k. rewrite Hk. apply map_ext. intros j. lia.
  - intros tiling Hp Hw.
    destruct (main_write_reached E a s0 Hw)
      as [tiling' [batches [ts [s1 [tl [s2 [tp [s3 [Es [El _]]]]]]]]]].
    pose proof (setup_outcome_plan E a s0 tiling' batches) as Hp'.
    rewrite Es in Hp'. unfold outcome in Hp'. simpl in Hp'.
    rewrite Hp in Hp' by reflexivity. injection (Hp' eq_refl) as <-.
    rewrite main_ws_indices, Es.
    destruct (predict_loop_indices E a tiling 0 batches s1) as [k [Hk Hok]].
    rewrite El in Hok. unfold outcome in Hok. simpl in Hok.
    destruct (Hok eq_refl) as [Hn Hj].
    assert (Hkn : k = length (tiles tiling)).
    { destruct (Nat.lt_trichotomy k (length (tiles tiling))) as [H|[H|H]];
        [lia|exact H|]. specialize (Hj (length (tiles tiling)) H). lia. }
    rewrite Hk, Hkn. apply map_ext. intros j. lia.
  - intros HP tiling tile batches s. apply predict_loop_not_hang. exact HP.
Qed.

Lemma main_writeslice_indices_witness :
  ws_indices (trace (main (ex_env 2 (fun _ => true))
                       (ex_args (mkV3 2 1 1) (Some 2%R) false 1) ex_dummy))
  = map Z.of_nat (seq 0 2).
Proof.
  destruct (main_writeslice_indices (ex_env 2 (fun _ => true))
              (ex_args (mkV3 2 1 1) (Some 2%R) false 1) ex_dummy) as [_ [H _]].
  exact (H _ eq_refl ltac:(vm_compute; discriminate)).
Defined.

(** *** The setup phase comes first *)

Lemma main_setup_not_ok E a s :
  (forall r, outcome (setup E a s) <> Ok r) ->
  trace (main E a s) = trace (setup E a s).
Proof.
  intros H. rewrite main_run. unfold outcome, trace in *.
  destruct (setup E a s) as [[[r|e|] ts] s1]; simpl in *;
    [exfalso; eapply H; reflexivity|reflexivity|reflexivity].
Qed.

(** Every loop, post-processing or persistence event of a run comes after
    any event that a completed setup phase is sure to have emitted. *)
Lemma main_after_setup_event E a s (P : event -> Prop) ev' :
  (forall r, outcome (setup E a s) = Ok r ->
     exists ev, In ev (trace (setup E a s)) /\ P ev) ->
  In ev' (trace (main E a s)) -> (6 <= rank ev')%nat -> is_raised ev' = false ->
  exists t1 ev t2,
    trace (main E a s) = t1 ++ ev :: t2 /\ P ev /\ In ev' t2 /\
    Forall (fun x => (rank x <= 5)%nat \/ is_raised x = true) t1.
Proof.
  intros HOk Hin Hr Hnr.
  pose proof (setup_ranks E a s) as HS.
  assert (Hev' : ~ In ev' (trace (setup E a s))).
  { intros Hi. rewrite Forall_forall in HS. destruct (HS _ Hi) as [X|X]; [lia|congruence]. }
  destruct (outcome (setup E a s)) as [r|e|] eqn:Eo.
  - destruct (HOk r eq_refl) as [ev [Hi HP]].
    destruct (main_after_setup E a s) as [rest [Htr _]].
    apply in_split in Hi as [t1 [t2 Ht]].
    exists t1, ev, (t2 ++ rest). rewrite Htr, Ht, <- app_assoc. split; [reflexivity|].
    split; [exact HP|]. split.
    + rewrite Htr in Hin. apply in_app_or in Hin as [Hi|Hi]; [contradiction|].
      apply in_or_app. right. exact Hi.
    + rewrite Ht in HS. apply Forall_app in HS. apply HS.
  - rewrite main_setup_not_ok in Hin by congruence. contradiction.
  - rewrite main_setup_not_ok in Hin by congruence. contradiction.
Qed.

Lemma Forall_setup_count (p : event -> bool) t :
  Forall (fun x => (rank x <= 5)%nat \/ is_raised x = true) t ->
  (forall ev, p ev = true -> (6 <= rank ev)%nat) -> (forall e, p (ERaised e) = false) ->
  count p t = 0%nat.
Proof.
  intros H Hp HR. apply (count_Forall_zero _ _ _ H); [|exact HR].
  intros ev Hr. destruct (p ev) eqn:X; [apply Hp in X; lia|reflexivity].
Qed.

(** ** C4: the output canvas *)

Lemma zeros_Ok sh x :
  zeros sh = Ok x -> ashape x = sh /\ forall p, aat x p = 0%R.
Proof.
  unfold zeros. destruct (_ || _); [discriminate|].
  intros H. injection H as <-. split; reflexivity.
Qed.

Lemma setup_output_canvas E a s :
  (count is_output_canvas (trace (setup E a s)) <= 1)%nat /\
  (forall c, In (EOutputCanvas c) (trace (setup E a s)) ->
     global_shape c = image_shape a /\
     canvas_area c = mkBox (start_coord a) (end_coord a) /\
     ashape (image c) = vsub (end_coord a) (start_coord a) /\
     forall p, aat (image c) p = 0%R) /\
  (forall r, outcome (setup E a s) = Ok r ->
     In (EOutputCanvas (final (setup E a s))) (trace (setup E a s))).
Proof.
  unfold setup. repeat (run_unfold; try run_step);
  (split; [unfold count; simpl; lia|]);
  (split;
   [intros c Hc; simpl in Hc;
    repeat (destruct Hc as [Hc|Hc]; [try discriminate|]); try contradiction;
    injection Hc as <-; simpl;
    match goal with H : zeros _ = Ok _ |- _ => destruct (zeros_Ok _ _ H) end;
    repeat split; auto
   |intros ? Hr; simpl in Hr |- *; try discriminate;
    repeat (first [left; reflexivity | right])]).
Qed.

(** C4: a run creates at most one output canvas, before any [writeSlice]
    call; it covers the target region [start, end) of the global volume,
    its backing array has the region's extent [end - start] (so backing
    shape = area extent) and holds zeros only; a completed setup phase
    leaves exactly this canvas as the mask the prediction loop writes to. *)
Theorem main_output_canvas (E : env) (a : args) (s0 : AbsoluteCanvas) :
  (count is_output_canvas (trace (main E a s0)) <= 1)%nat /\
  (forall c, In (EOutputCanvas c) (trace (main E a s0)) ->
     global_shape c = image_shape a /\
     canvas_area c = mkBox (start_coord a) (end_coord a) /\
     ashape (image c) = vsub (end_coord a) (start_coord a) /\
     ashape (image c) = extent (canvas_area c) /\
     (forall p, aat (image c) p = 0%R)) /\
  (forall i d, In (EWriteSlice i d) (trace (main E a s0)) ->
     exists t1 c t2,
       trace (main E a s0) = t1 ++ EOutputCanvas c :: t2 /\
       In (EWriteSlice i d) t2 /\ count is_writeslice t1 = 0%nat) /\
  (forall tiling batches ts s1,
     setup E a s0 = (Ok (tiling, batches), ts, s1) -> In (EOutputCanvas s1) ts).
Proof.
  destruct (setup_output_canvas E a s0) as [H1 [H2 H3]].
  destruct (main_after_setup E a s0) as [rest [Htr Hrest]].
  split; [|split; [|split]].
  - rewrite Htr, count_app,
      (rest_no_setup_event is_output_canvas rest Hrest)
      by (intros [] ?; simpl in *; discriminate || lia).
    lia.
  - intros c Hc. rewrite Htr in Hc. apply in_app_or in Hc as [Hc|Hc].
    + destruct (H2 c Hc) as [G [A [S Z]]]. repeat split; auto.
      rewrite S, A. reflexivity.
    + rewrite Forall_forall in Hrest. destruct (Hrest _ Hc) as [X|X];
        simpl in X; [lia|discriminate].
  - intros i d Hin.
    destruct (main_after_setup_event E a s0
                (fun ev => exists c, ev = EOutputCanvas c) (EWriteSlice i d))
      as [t1 [ev [t2 [Ht [[c ->] [Hi Hf]]]]]];
      [|exact Hin|simpl; lia|reflexivity|].
    + intros r Hr. exists (EOutputCanvas (final (setup E a s0))).
      split; [exact (H3 r Hr)|eexists; reflexivity].
    + exists t1, c, t2. split; [exact Ht|]. split; [exact Hi|].
      apply (Forall_setup_count _ _ Hf); [|reflexivity].
      intros [] X; simpl in *; discriminate || lia.
  - intros tiling batches ts s1 Es. specialize (H3 (tiling, batches)).
    rewrite Es in H3. exact (H3 eq_refl).
Qed.

Lemma main_output_canvas_witness :
  let c := mkCanvas (mkV3 2 1 1) (mkBox origin (mkV3 2 1 1))
             (mkArr (mkV3 2 1 1) (fun _ => 0%R)) in
  In (EOutputCanvas c)
     (trace (main (ex_env 2 (fun _ => true))
               (ex_args (mkV3 2 1 1) (Some 2%R) false 1) ex_dummy)) /\
  ashape (image c) = extent (canvas_area c) /\ aat (image c) origin = 0%R.
Proof.
  intros c.
  assert (Hin : In (EOutputCanvas c)
                  (trace (main (ex_env 2 (fun _ => true))
                            (ex_args (mkV3 2 1 1) (Some 2%R) false 1) ex_dummy)))
    by (vm_compute; repeat (first [left; reflexivity | right])).
  split; [exact Hin|].
  destruct (proj1 (proj2 (main_output_canvas (ex_env 2 (fun _ => true))
                            (ex_args (mkV3 2 1 1) (Some 2%R) false 1) ex_dummy))
    c Hin) as [_ [_ [_ [H4 H5]]]].
  split; [exact H4|apply H5].
Defined.

(** ** C10: intensity scaling *)

Ltac setup_cases := unfold plan_of, setup; repeat (run_unfold; try run_step).

Ltac in_list := simpl; repeat (first [left; reflexivity | right]).

Ltac in_cases H :=
  simpl in H; repeat (destruct H as [H|H]; [try discriminate|]);
  try contradiction.

Lemma setup_scale_count E a s : (count is_scale (trace (setup E a s)) <= 1)%nat.
Proof. setup_cases; unfold count; simpl; lia. Qed.

Lemma setup_no_calc E a s f0 :
  scaling a = Some f0 -> count is_calc (trace (setup E a s)) = 0%nat.
Proof. intros Hs. setup_cases; try congruence; reflexivity. Qed.

Lemma setup_scale_source E a s img f :
  In (EScale img f) (trace (setup E a s)) ->
  (exists st en,
     In (ERead (input_path a) (input_data_set a) st en) (trace (setup E a s)) /\
     read_n5_block E (input_path a) (input_data_set a) st en = Ok img) /\
  match scaling a with
  | Some f0 => f = f0
  | None => In (ECalcScale img) (trace (setup E a s)) /\
            calculateScalingFactor E img = Ok f
  end.
Proof.
  setup_cases; intros Hin; in_cases Hin; injection Hin as <- <-;
    (split; [eexists _, _; split; [in_list|eassumption]|]);
    try reflexivity; (split; [in_list|assumption]).
Qed.

Lemma setup_input_canvas_scaled E a s c :
  In (EInputCanvas c) (trace (setup E a s)) ->
  exists img f, In (EScale img f) (trace (setup E a s)) /\
                scaleImage E img f = Ok (image c).
Proof.
  setup_cases; intros Hin; in_cases Hin; injection Hin as <-;
    (eexists _, _; split; [in_list|eassumption]).
Qed.

Lemma setup_scale_once E a s tiling img :
  plan_of a = Planned tiling ->
  read_n5_block E (input_path a) (input_data_set a)
    (bstart (unet_box a tiling)) (bend (unet_box a tiling)) = Ok img ->
  match scaling a with
  | Some _ => True
  | None => exists f, calculateScalingFactor E img = Ok f
  end ->
  count is_scale (trace (setup E a s)) = 1%nat.
Proof.
  unfold unet_box. cbn [bstart bend].
  setup_cases; intros Hp; try discriminate; injection Hp as <-;
    intros Hr; try congruence; intros Hf; try reflexivity;
    try (rewrite Hr in *; congruence);
    destruct Hf as [f Hf]; congruence.
Qed.

Lemma setup_ok_scaled E a s r :
  outcome (setup E a s) = Ok r ->
  exists img f, In (EScale img f) (trace (setup E a s)).
Proof.
  setup_cases; intros Hr; try discriminate; eexists _, _; in_list.
Qed.

(** C10: the factor that scales the bulk-read image is the command-line
    [scaling] when one is given (and [calculateScalingFactor] is then never
    called), otherwise [calculateScalingFactor] of the image returned by the
    bulk read; [scaleImage] is called at most once, on that image, and
    exactly once when the plan is built, the read succeeds and a factor is
    obtained; its result backs the input canvas, and the call comes before
    every model prediction. *)
Theorem main_scaling (E : env) (a : args) (s0 : AbsoluteCanvas) :
  (count is_scale (trace (main E a s0)) <= 1)%nat /\
  (forall img f, In (EScale img f) (trace (main E a s0)) ->
     (exists st en,
        In (ERead (input_path a) (input_data_set a) st en) (trace (main E a s0)) /\
        read_n5_block E (input_path a) (input_data_set a) st en = Ok img) /\
     match scaling a with
     | Some f0 => f = f0 /\ count is_calc (trace (main E a s0)) = 0%nat
     | None => In (ECalcScale img) (trace (main E a s0)) /\
               calculateScalingFactor E img = Ok f
     end) /\
  (forall tiling img, plan_of a = Planned tiling ->
     read_n5_block E (input_path a) (input_data_set a)
       (bstart (unet_box a tiling)) (bend (unet_box a tiling)) = Ok img ->
     match scaling a with
     | Some _ => True
     | None => exists f, calculateScalingFactor E img = Ok f
     end ->
     count is_scale (trace (main E a s0)) = 1%nat) /\
  (forall c, In (EInputCanvas c) (trace (main E a s0)) ->
     exists img f, In (EScale img f) (trace (main E a s0)) /\
                   scaleImage E img f = Ok (image c)) /\
  (forall inp, In (EPredict inp) (trace (main E a s0)) ->
     exists t1 img f t2,
       trace (main E a s0) = t1 ++ EScale img f :: t2 /\ In (EPredict inp) t2).
Proof.
  destruct (main_after_setup E a s0) as [rest [Htr Hrest]].
  assert (Hin : forall ev, In ev (trace (main E a s0)) -> (rank ev <= 5)%nat ->
                           In ev (trace (setup E a s0))).
  { intros ev Hi Hr. rewrite Htr in Hi. apply in_app_or in Hi as [Hi|Hi]; [exact Hi|].
    rewrite Forall_forall in Hrest. destruct (Hrest _ Hi) as [X|X]; [lia|].
    destruct ev; simpl in *; discriminate || lia. }
  assert (Hsub : forall ev, In ev (trace (setup E a s0)) -> In ev (trace (main E a s0)))
    by (intros ev Hi; rewrite Htr; apply in_or_app; left; exact Hi).
  assert (Hc : forall p, (forall ev, p ev = true -> (rank ev <= 5)%nat) ->
                 count p (trace (main E a s0)) = count p (trace (setup E a s0))).
  { intros p Hp. rewrite Htr, count_app, (rest_no_setup_event p rest Hrest Hp). lia. }
  assert (Hcs : forall ev, is_scale ev = true -> (rank ev <= 5)%nat)
    by (intros [] X; simpl in *; discriminate || lia).
  split; [|split; [|split; [|split]]].
  - rewrite (Hc _ Hcs). apply setup_scale_count.
  - intros img f Hi. apply Hin in Hi; [|simpl; lia].
    destruct (setup_scale_source E a s0 img f Hi) as [[st [en [H1 H2]]] H3].
    split; [exists st, en; split; [apply Hsub; exact H1|exact H2]|].
    destruct (scaling a) as [f0|] eqn:Hs.
    + split; [exact H3|]. rewrite Hc by (intros [] X; simpl in *; discriminate || lia).
      apply (setup_no_calc E a s0 f0 Hs).
    + destruct H3 as [H3 H4]. split; [apply Hsub; exact H3|exact H4].
  - intros tiling img Hp Hr Hf. rewrite (Hc _ Hcs).
    exact (setup_scale_once E a s0 tiling img Hp Hr Hf).
  - intros c Hi. apply Hin in Hi; [|simpl; lia].
    destruct (setup_input_canvas_scaled E a s0 c Hi) as [img [f [H1 H2]]].
    exists img, f. split; [apply Hsub; exact H1|exact H2].
  - intros inp Hi.
    destruct (main_after_setup_event E a s0
                (fun ev => exists img f, ev = EScale img f) (EPredict inp))
      as [t1 [ev [t2 [Ht [[img [f ->]] [Hi2 _]]]]]];
      [|exact Hi|simpl; lia|reflexivity|].
    + intros r Hr. destruct (setup_ok_scaled E a s0 r Hr) as [img [f Hf]].
      exists (EScale img f). split; [exact Hf|eexists _, _; reflexivity].
    + exists t1, img, f, t2. split; [exact Ht|exact Hi2].
Qed.

Lemma main_scaling_witness :
  count is_scale
    (trace (main (ex_env 2 (fun _ => true))
              (ex_args (mkV3 2 1 1) None false 1) ex_dummy)) = 1%nat.
Proof.
  destruct (main_scaling (ex_env 2 (fun _ => true))
              (ex_args (mkV3 2 1 1) None false 1) ex_dummy)
    as [_ [_ [H _]]].
  apply (H _ _ eq_refl eq_refl). exists 1%R. reflexivity.
Defined.

(** ** The order of a run's events *)

Lemma rank_le_10 ev : (rank ev <= 10)%nat.
Proof. destruct ev; simpl; lia. Qed.

Lemma Sorted_rank_app l1 l2 :
  Sorted (fun x y => (rank x <= rank y)%nat) l1 ->
  Sorted (fun x y => (rank x <= rank y)%nat) l2 ->
  (forall x y, In x l1 -> In y l2 -> (rank x <= rank y)%nat) ->
  Sorted (fun x y => (rank x <= rank y)%nat) (l1 ++ l2).
Proof.
  induction l1 as [|x l1 IH]; intros H1 H2 Hc; [exact H2|].
  apply Sorted_inv in H1 as [H1 Hd]. simpl. constructor.
  - apply IH; auto. intros u v Hu Hv. apply Hc; [right|]; auto.
  - destruct l1 as [|z l1]; simpl.
    + destruct l2 as [|w l2]; constructor. apply Hc; left; reflexivity.
    + apply HdRel_inv in Hd. constructor. exact Hd.
Qed.

Lemma Sorted_const k t :
  Forall (fun ev => rank ev = k) t -> Sorted (fun x y => (rank x <= rank y)%nat) t.
Proof.
  induction 1 as [|x t Hx Ht IH]; constructor; [exact IH|].
  destruct Ht as [|y t' Hy _]; constructor. lia.
Qed.

Lemma Forall_no_raise (P : event -> Prop) t :
  Forall (fun ev => P ev \/ is_raised ev = true) t -> NoRaise t -> Forall P t.
Proof.
  intros H HN. rewrite Forall_forall in *. intros ev Hin.
  destruct (H ev Hin) as [X|X]; [exact X|].
  destruct ev; try discriminate. exfalso. apply (HN e Hin).
Qed.

(** A phase's trace whose events all have rank [k], except a final
    exception. *)
Lemma Sorted_phase {A} k (m : M A) s :
  Emits (fun ev => rank ev = k) m -> WF m ->
  Sorted (fun x y => (rank x <= rank y)%nat) (trace (m s)).
Proof.
  intros HE HW. specialize (HE s). specialize (HW s).
  destruct (outcome (m s)) as [x|e|].
  - apply (Sorted_const k). apply (Forall_no_raise _ _ HE HW).
  - destruct HW as [t' [Ht HN]]. rewrite Ht in HE |- *.
    apply Forall_app in HE as [HE _].
    apply Sorted_rank_app; [apply (Sorted_const k); apply (Forall_no_raise _ _ HE HN)
                           |repeat constructor|].
    intros x y _ [<-|[]]. apply rank_le_10.
  - apply (Sorted_const k). apply (Forall_no_raise _ _ HE HW).
Qed.

Ltac sorted_tac :=
  repeat (first [ apply Sorted_nil | apply Sorted_cons | apply HdRel_nil
                | apply HdRel_cons; simpl; lia ]).

Lemma setup_sorted E a s :
  Sorted (fun x y => (rank x <= rank y)%nat) (trace (setup E a s)).
Proof. setup_cases; sorted_tac. Qed.

Lemma Emits_predict_loop_rank E a tiling n tile batches :
  Emits (fun ev => rank ev = 6%nat) (predict_loop E a tiling n tile batches).
Proof.
  intros s. eapply Forall_impl; [|apply Emits_predict_loop].
  intros [] [X|X]; simpl in *; auto; contradiction.
Qed.

Lemma post_processing_sorted E a s :
  Sorted (fun x y => (rank x <= rank y)%nat) (trace (post_processing E a s)).
Proof.
  rewrite post_processing_run. destruct (with_post_processing a); [|constructor].
  destruct (clean_floodFill E _ _ _) as [y|e|];
    [destruct (removeSmallObjects E _ _ _) as [w|e|]|..];
    unfold trace; simpl; sorted_tac.
Qed.

Lemma write_result_sorted E a s :
  Sorted (fun x y => (rank x <= rank y)%nat) (trace (write_result E a s)).
Proof.
  rewrite write_result_run. simpl.
  destruct (write_n5_block E _ _ _ _ _); unfold trace; simpl; sorted_tac.
Qed.

Lemma Forall_rank_cross lo t1 t2 :
  Forall (fun x => (rank x < lo)%nat) t1 ->
  Forall (fun y => (lo <= rank y)%nat \/ is_raised y = true) t2 ->
  forall x y, In x t1 -> In y t2 -> (rank x <= rank y)%nat.
Proof.
  intros H1 H2 x y Hx Hy. rewrite Forall_forall in *.
  specialize (H1 x Hx). destruct (H2 y Hy) as [X|X]; [lia|].
  destruct y; try discriminate. pose proof (rank_le_10 x). simpl. lia.
Qed.

(** The events of every run come in the order of [main]'s phases. *)
Lemma main_sorted E a s :
  Sorted (fun x y => (rank x <= rank y)%nat) (trace (main E a s)).
Proof.
  pose proof (setup_sorted E a s) as SS. pose proof (setup_ranks E a s) as HS.
  pose proof (WF_setup E a s) as WS.
  rewrite main_run.
  destruct (setup E a s) as [[[[tiling batches]|e|] ts] s1];
    unfold trace, outcome in SS, HS, WS |- *; simpl in SS, HS, WS |- *;
    [|exact SS..].
  assert (HS' : Forall (fun ev => (rank ev < 6)%nat) ts)
    by (eapply Forall_impl; [|apply (Forall_no_raise _ _ HS WS)]; simpl; intros; lia).
  pose proof (Sorted_phase 6 _ s1 (Emits_predict_loop_rank E a tiling
               (Z.of_nat (length (tiles tiling))) 0 batches)
               (WF_predict_loop _ _ _ _ _ _)) as SL.
  pose proof (Emits_predict_loop_rank E a tiling (Z.of_nat (length (tiles tiling)))
                0 batches s1) as HL.
  pose proof (WF_predict_loop E a tiling (Z.of_nat (length (tiles tiling)))
                0 batches s1) as WL.
  destruct (predict_loop _ _ _ _ _ _ s1) as [[[[]|e|] tl] s2];
    unfold trace, outcome in SL, HL, WL; simpl in SL, HL, WL |- *;
    try (apply Sorted_rank_app; [exact SS|exact SL|];
         apply (Forall_rank_cross 6 _ _ HS');
         eapply Forall_impl; [|exact HL]; simpl; intros ev [X|X]; [left; lia|right; exact X]).
  pose proof (post_processing_sorted E a s2) as SP.
  pose proof (Emits_post_processing E a s2) as HP.
  pose proof (WF_post_processing E a s2) as WP.
  assert (HL' : Forall (fun ev => (rank ev < 7)%nat) tl)
    by (eapply Forall_impl; [|apply (Forall_no_raise _ _ HL WL)]; simpl; intros; lia).
  assert (HSL : Forall (fun ev => (rank ev < 7)%nat) (ts ++ tl))
    by (apply Forall_app; split; [eapply Forall_impl; [|exact HS']; simpl; intros; lia
                                 |exact HL']).
  assert (SSL : Sorted (fun x y => (rank x <= rank y)%nat) (ts ++ tl)).
  { apply Sorted_rank_app; [exact SS|exact SL|].
    apply (Forall_rank_cross 6 _ _ HS').
    eapply Forall_impl; [|exact HL]; simpl; intros ev [X|X]; [left; lia|right; exact X]. }
  destruct (post_processing E a s2) as [[[[]|e|] tp] s3];
    unfold trace, outcome in SP, HP, WP; simpl in SP, HP, WP |- *;
    try (rewrite app_assoc; apply Sorted_rank_app; [exact SSL|exact SP|];
         apply (Forall_rank_cross 7 _ _ HSL);
         eapply Forall_impl; [|exact HP]; simpl; intros ev [X|X];
         [left; lia|right; exact X]).
  pose proof (write_result_sorted E a s3) as SW.
  pose proof (Emits_write_result E a s3) as HW.
  assert (HP' : Forall (fun ev => (rank ev < 9)%nat) tp)
    by (eapply Forall_impl; [|apply (Forall_no_raise _ _ HP WP)]; simpl; intros; lia).
  destruct (write_result E a s3) as [[r tw] s4].
  unfold trace in SW, HW; simpl in SW, HW |- *.
  rewrite !app_assoc. apply Sorted_rank_app.
  - apply Sorted_rank_app; [exact SSL|exact SP|].
    apply (Forall_rank_cross 7 _ _ HSL).
    eapply Forall_impl; [|exact HP]; simpl; intros ev [X|X]; [left; lia|right; exact X].
  - exact SW.
  - apply (Forall_rank_cross 9).
    + apply Forall_app. split; [|exact HP'].
      eapply Forall_impl; [|exact HSL]; simpl; intros; lia.
    + eapply Forall_impl; [|exact HW]; simpl; intros ev [X|X]; [left; lia|right; exact X].
Qed.

(** *** Post-processing and persistence events of a run *)

Lemma main_ok_write E a s :
  outcome (main E a s) = Ok tt -> count is_write (trace (main E a s)) <> 0%nat.
Proof.
  rewrite main_run.
  destruct (setup E a s) as [[[[tiling batches]|e|] ts] s1]; try discriminate.
  destruct (predict_loop _ _ _ _ _ _ s1) as [[[[]|e|] tl] s2]; try discriminate.
  destruct (post_processing E a s2) as [[[[]|e|] tp] s3]; try discriminate.
  rewrite write_result_run. simpl.
  destruct (write_n5_block E _ _ _ _ _); unfold outcome, trace; simpl;
    try discriminate. intros _.
  rewrite !count_app. simpl. unfold count at 4. simpl. lia.
Qed.

Lemma main_count_late (p : event -> bool) E a s :
  (forall ev, p ev = true -> (7 <= rank ev)%nat) -> (forall e, p (ERaised e) = false) ->
  count p (trace (main E a s)) = 0%nat \/
  exists tiling batches ts s1 tl s2,
    setup E a s = (Ok (tiling, batches), ts, s1) /\
    predict_loop E a tiling (Z.of_nat (length (tiles tiling))) 0 batches s1
      = (Ok tt, tl, s2) /\
    count p (trace (main E a s)) =
      (count p (trace (post_processing E a s2)) +
       match post_processing E a s2 with
       | (Ok _, _, s3) => count p (trace (write_result E a s3))
       | _ => 0
       end)%nat.
Proof.
  intros Hp HR.
  assert (Hp' : forall ev, p ev = true -> (6 <= rank ev)%nat)
    by (intros ev X; apply Hp in X; lia).
  pose proof (setup_ranks E a s) as HS.
  rewrite main_run.
  destruct (setup E a s) as [[[[tiling batches]|e|] ts] s1] eqn:Es;
    unfold trace in HS; simpl in HS;
    [|left; unfold trace; simpl; exact (Forall_setup_count p _ HS Hp' HR)..].
  assert (Hts : count p ts = 0%nat) by exact (Forall_setup_count p _ HS Hp' HR).
  pose proof (Emits_predict_loop_rank E a tiling (Z.of_nat (length (tiles tiling)))
                0 batches s1) as HL.
  assert (Htl : count p (trace (predict_loop E a tiling
                  (Z.of_nat (length (tiles tiling))) 0 batches s1)) = 0%nat).
  { apply (count_Forall_zero _ _ _ HL); [|exact HR].
    intros ev X. destruct (p ev) eqn:Pe; [apply Hp in Pe; lia|reflexivity]. }
  destruct (predict_loop _ _ _ _ _ _ s1) as [[[[]|e|] tl] s2] eqn:El;
    unfold trace in Htl; simpl in Htl;
    [|left; unfold trace; simpl; rewrite count_app, Hts, Htl; reflexivity..].
  right. exists tiling, batches, ts, s1, tl, s2. split; [reflexivity|].
  split; [exact El|].
  destruct (post_processing E a s2) as [[[[]|e|] tp] s3];
    unfold trace; simpl;
    [destruct (write_result E a s3) as [[r tw] s4]; simpl|..];
    rewrite !count_app, Hts, Htl; simpl; lia.
Qed.

Lemma post_processing_counts E a s :
  count is_flood (trace (post_processing E a s))
    = (if with_post_processing a then 1 else 0)%nat /\
  (count is_remove (trace (post_processing E a s))
    <= if with_post_processing a then 1 else 0)%nat /\
  count is_write (trace (post_processing E a s)) = 0%nat.
Proof.
  rewrite post_processing_run. destruct (with_post_processing a); [|auto].
  destruct (clean_floodFill E _ _ _) as [y|e|];
    [destruct (removeSmallObjects E _ _ _) as [w|e|]|..];
    unfold trace, count; simpl; lia.
Qed.

Lemma write_result_counts E a s :
  count is_flood (trace (write_result E a s)) = 0%nat /\
  count is_remove (trace (write_result E a s)) = 0%nat /\
  count is_write (trace (write_result E a s)) = 1%nat.
Proof.
  rewrite write_result_run. simpl.
  destruct (write_n5_block E _ _ _ _ _); unfold trace, count; simpl; auto.
Qed.

(** ** C3: post-processing *)

(** C3 (as stated): the default run, without [--with_post_processing],
    completes and never applies the post-processor. *)
Lemma main_post_processing_counterexample :
  outcome (main (ex_env 2 (fun _ => true))
             (ex_args (mkV3 2 1 1) (Some 2%R) false 1) ex_dummy) = Ok tt /\
  count is_flood (trace (main (ex_env 2 (fun _ => true))
                           (ex_args (mkV3 2 1 1) (Some 2%R) false 1) ex_dummy))
    = 0%nat.
Proof. split; vm_compute; reflexivity. Qed.

(** C3 (amended): the run's events come in the order of [main]'s phases,
    so every [writeSlice] call comes before the flood fill, which comes
    before the small-object removal, which comes before the persistence
    write.  Each pass runs at most once; without [with_post_processing]
    neither runs.  With it, a run that completes has run the flood fill
    once on the output canvas's array as the prediction loop left it, then
    the removal once on the flood fill's result, and writes the removal's
    result, the canvas keeping its shape and area. *)
Theorem main_post_processing (E : env) (a : args) (s0 : AbsoluteCanvas) :
  Sorted (fun x y => (rank x <= rank y)%nat) (trace (main E a s0)) /\
  (count is_flood (trace (main E a s0)) <= 1)%nat /\
  (count is_remove (trace (main E a s0)) <= 1)%nat /\
  (with_post_processing a = false ->
     count is_flood (trace (main E a s0)) = 0%nat /\
     count is_remove (trace (main E a s0)) = 0%nat) /\
  (with_post_processing a = true -> outcome (main E a s0) = Ok tt ->
     exists tiling batches ts s1 tl s2 y w,
       setup E a s0 = (Ok (tiling, batches), ts, s1) /\
       predict_loop E a tiling (Z.of_nat (length (tiles tiling))) 0 batches s1
         = (Ok tt, tl, s2) /\
       clean_floodFill E (image s2) (high_threshold a) (low_threshold a) = Ok y /\
       removeSmallObjects E y (small_region_probability_threshold a)
         (small_region_size_threshold a) = Ok w /\
       trace (main E a s0) =
         ts ++ tl ++
         [EFloodFill (image s2) (high_threshold a) (low_threshold a);
          ERemoveSmall y (small_region_probability_threshold a)
            (small_region_size_threshold a);
          EWrite (output_path a) (output_data_set a) (start_coord a)
            (end_coord a) w] /\
       final (main E a s0) = set_image (set_image s2 y) w).
Proof.
  split; [apply main_sorted|].
  assert (Cf : forall ev, is_flood ev = true -> (7 <= rank ev)%nat)
    by (intros [] X; simpl in *; discriminate || lia).
  assert (Cr : forall ev, is_remove ev = true -> (7 <= rank ev)%nat)
    by (intros [] X; simpl in *; discriminate || lia).
  split; [|split; [|split]].
  - destruct (main_count_late is_flood E a s0 Cf (fun _ => eq_refl))
      as [->|[tiling [batches [ts [s1 [tl [s2 [_ [_ ->]]]]]]]]]; [lia|].
    destruct (post_processing_counts E a s2) as [P1 _].
    destruct (post_processing E a s2) as [[[[]|e|] tp] s3] eqn:Ep;
      rewrite P1; [|destruct (with_post_processing a); lia..].
    rewrite (proj1 (write_result_counts E a s3)).
    destruct (with_post_processing a); lia.
  - destruct (main_count_late is_remove E a s0 Cr (fun _ => eq_refl))
      as [->|[tiling [batches [ts [s1 [tl [s2 [_ [_ ->]]]]]]]]]; [lia|].
    destruct (post_processing_counts E a s2) as [_ [P2 _]].
    destruct (post_processing E a s2) as [[[[]|e|] tp] s3] eqn:Ep;
      [|destruct (with_post_processing a); lia..].
    rewrite (proj1 (proj2 (write_result_counts E a s3))).
    destruct (with_post_processing a); lia.
  - intros Hf.
    destruct (main_count_late is_flood E a s0 Cf (fun _ => eq_refl))
      as [H1|[tiling [batches [ts [s1 [tl [s2 [_ [_ H1]]]]]]]]];
    destruct (main_count_late is_remove E a s0 Cr (fun _ => eq_refl))
      as [H2|[tiling' [batches' [ts' [s1' [tl' [s2' [_ [_ H2]]]]]]]]];
    rewrite ?H1, ?H2; clear H1 H2; split; try reflexivity;
    rewrite post_processing_run, Hf; cbn -[write_result];
    first [rewrite (proj1 (write_result_counts E a _)); reflexivity
          |rewrite (proj1 (proj2 (write_result_counts E a _))); reflexivity].
  - intros Hf Ho.
    destruct (main_write_reached E a s0 (main_ok_write E a s0 Ho))
      as [tiling [batches [ts [s1 [tl [s2 [tp [s3 [Es [El [Ep [Eo [Et Efin]]]]]]]]]]]]].
    rewrite post_processing_run, Hf in Ep.
    destruct (clean_floodFill E (image s2) _ _) as [y|e|] eqn:Ec; try discriminate.
    destruct (removeSmallObjects E y _ _) as [w|e|] eqn:Er; try discriminate.
    injection Ep as <- <-.
    exists tiling, batches, ts, s1, tl, s2, y, w.
    repeat split; try assumption.
    rewrite Et, write_result_run in *. rewrite Eo in Ho. simpl in Ho |- *.
    destruct (write_n5_block E _ _ _ _ _); try discriminate. reflexivity.
Qed.

Lemma main_post_processing_witness :
  (count is_flood (trace (main (ex_env 2 (fun _ => true)) ex_args_post ex_dummy))
    <= 1)%nat /\
  exists tiling batches ts s1 tl s2 y w,
    setup (ex_env 2 (fun _ => true)) ex_args_post ex_dummy
      = (Ok (tiling, batches), ts, s1) /\
    predict_loop (ex_env 2 (fun _ => true)) ex_args_post tiling
      (Z.of_nat (length (tiles tiling))) 0 batches s1 = (Ok tt, tl, s2) /\
    clean_floodFill (ex_env 2 (fun _ => true)) (image s2)
      (high_threshold ex_args_post) (low_threshold ex_args_post) = Ok y /\
    removeSmallObjects (ex_env 2 (fun _ => true)) y
      (small_region_probability_threshold ex_args_post)
      (small_region_size_threshold ex_args_post) = Ok w /\
    trace (main (ex_env 2 (fun _ => true)) ex_args_post ex_dummy) =
      ts ++ tl ++
      [EFloodFill (image s2) (high_threshold ex_args_post) (low_threshold ex_args_post);
       ERemoveSmall y (small_region_probability_threshold ex_args_post)
         (small_region_size_threshold ex_args_post);
       EWrite (output_path ex_args_post) (output_data_set ex_args_post)
         (start_coord ex_args_post) (end_coord ex_args_post) w] /\
    final (main (ex_env 2 (fun _ => true)) ex_args_post ex_dummy)
      = set_image (set_image s2 y) w.
Proof.
  destruct (main_post_processing (ex_env 2 (fun _ => true)) ex_args_post ex_dummy)
    as [_ [H1 [_ [_ H]]]].
  split; [exact H1|].
  apply H; [reflexivity|vm_compute; reflexivity].
Defined.

(** ** C5: the persistence write *)

Lemma count_In_pos (p : event -> bool) ev t :
  In ev t -> p ev = true -> count p t <> 0%nat.
Proof.
  intros Hin Hp. unfold count. intros Hl. apply length_zero_iff_nil in Hl.
  assert (X : In ev (filter p t)) by (apply filter_In; auto).
  rewrite Hl in X. exact X.
Qed.

Lemma Forall_rank_not_In (P : event -> Prop) ev t :
  Forall (fun ev => P ev \/ is_raised ev = true) t -> ~ P ev ->
  is_raised ev = false -> ~ In ev t.
Proof.
  intros H HP HR Hin. rewrite Forall_forall in H.
  destruct (H ev Hin) as [X|X]; [contradiction|congruence].
Qed.

(** C5: a run performs at most one persistence write; every write it does
    perform passes [output_path], [output_data_set] and the requested
    target region [(start, end)], with the output canvas's array as the
    run leaves it.  Once post-processing has completed, exactly one write
    follows, of the array post-processing left on the output canvas, and
    nothing changes that canvas afterwards. *)
Theorem main_persistence (E : env) (a : args) (s0 : AbsoluteCanvas) :
  (count is_write (trace (main E a s0)) <= 1)%nat /\
  (forall p d st en x, In (EWrite p d st en x) (trace (main E a s0)) ->
     p = output_path a /\ d = output_data_set a /\ st = start_coord a /\
     en = end_coord a /\ x = image (final (main E a s0))) /\
  (forall tiling batches ts s1 tl s2 tp s3,
     setup E a s0 = (Ok (tiling, batches), ts, s1) ->
     predict_loop E a tiling (Z.of_nat (length (tiles tiling))) 0 batches s1
       = (Ok tt, tl, s2) ->
     post_processing E a s2 = (Ok tt, tp, s3) ->
     exists tw,
       trace (main E a s0) =
         ts ++ tl ++ tp ++
         EWrite (output_path a) (output_data_set a) (start_coord a)
           (end_coord a) (image s3) :: tw /\
       count is_write tw = 0%nat /\
       final (main E a s0) = s3).
Proof.
  assert (Cw : forall ev, is_write ev = true -> (7 <= rank ev)%nat)
    by (intros [] X; simpl in *; discriminate || lia).
  split; [|split].
  - destruct (main_count_late is_write E a s0 Cw (fun _ => eq_refl))
      as [->|[tiling [batches [ts [s1 [tl [s2 [_ [_ ->]]]]]]]]]; [lia|].
    destruct (post_processing_counts E a s2) as [_ [_ P3]].
    destruct (post_processing E a s2) as [[[[]|e|] tp] s3];
      rewrite P3; [|lia..].
    rewrite (proj2 (proj2 (write_result_counts E a s3))). lia.
  - intros p d st en x Hin.
    destruct (main_write_reached E a s0 (count_In_pos is_write _ _ Hin eq_refl))
      as [tiling [batches [ts [s1 [tl [s2 [tp [s3 [Es [El [Ep [_ [Et Efin]]]]]]]]]]]]].
    rewrite Efin. rewrite Et in Hin.
    pose proof (setup_ranks E a s0) as HS. rewrite Es in HS.
    pose proof (Emits_predict_loop_rank E a tiling
                  (Z.of_nat (length (tiles tiling))) 0 batches s1) as HL.
    rewrite El in HL.
    pose proof (Emits_post_processing E a s2) as HP. rewrite Ep in HP.
    unfold trace in HS, HL, HP; simpl in HS, HL, HP.
    apply in_app_or in Hin as [Hin|Hin];
      [exfalso; revert Hin; apply (Forall_rank_not_In _ _ _ HS);
       simpl; [lia|reflexivity]|].
    apply in_app_or in Hin as [Hin|Hin];
      [exfalso; revert Hin; apply (Forall_rank_not_In _ _ _ HL);
       simpl; [lia|reflexivity]|].
    apply in_app_or in Hin as [Hin|Hin];
      [exfalso; revert Hin; apply (Forall_rank_not_In _ _ _ HP);
       simpl; [lia|reflexivity]|].
    rewrite write_result_run in Hin. simpl in Hin.
    destruct (write_n5_block E _ _ _ _ _); unfold trace in Hin; simpl in Hin;
      repeat match type of Hin with _ \/ _ => destruct Hin as [Hin|Hin] end;
      try contradiction; try discriminate;
      injection Hin as <- <- <- <- <-; auto.
  - intros tiling batches ts s1 tl s2 tp s3 Es El Ep.
    rewrite main_run, Es, El, Ep, write_result_run. simpl.
    destruct (write_n5_block E _ _ _ _ _);
      [exists []|exists [ERaised e]|exists []];
      unfold trace, final; simpl; auto.
Qed.

Lemma main_persistence_witness :
  exists tiling batches ts s1 tl s2 tp s3,
    setup (ex_env 2 (fun _ => true)) ex_args_post ex_dummy
      = (Ok (tiling, batches), ts, s1) /\
    predict_loop (ex_env 2 (fun _ => true)) ex_args_post tiling
      (Z.of_nat (length (tiles tiling))) 0 batches s1 = (Ok tt, tl, s2) /\
    post_processing (ex_env 2 (fun _ => true)) ex_args_post s2 = (Ok tt, tp, s3) /\
    exists tw,
      trace (main (ex_env 2 (fun _ => true)) ex_args_post ex_dummy) =
        ts ++ tl ++ tp ++
        EWrite (output_path ex_args_post) (output_data_set ex_args_post)
          (start_coord ex_args_post) (end_coord ex_args_post) (image s3) :: tw /\
      count is_write tw = 0%nat /\
      final (main (ex_env 2 (fun _ => true)) ex_args_post ex_dummy) = s3.
Proof.
  destruct (main_persistence (ex_env 2 (fun _ => true)) ex_args_post ex_dummy)
    as [_ [_ H]].
  match eval vm_compute in (setup (ex_env 2 (fun _ => true)) ex_args_post ex_dummy)
  with (Ok (?tiling, ?batches), ?ts, ?s1) =>
    assert (Es : setup (ex_env 2 (fun _ => true)) ex_args_post ex_dummy
                   = (Ok (tiling, batches), ts, s1)) by (vm_compute; reflexivity);
    match eval vm_compute in (predict_loop (ex_env 2 (fun _ => true)) ex_args_post
                                tiling (Z.of_nat (length (tiles tiling))) 0 batches s1)
    with (Ok tt, ?tl, ?s2) =>
      assert (El : predict_loop (ex_env 2 (fun _ => true)) ex_args_post tiling
                     (Z.of_nat (length (tiles tiling))) 0 batches s1
                     = (Ok tt, tl, s2)) by (vm_compute; reflexivity);
      match eval vm_compute in (post_processing (ex_env 2 (fun _ => true))
                                  ex_args_post s2)
      with (Ok tt, ?tp, ?s3) =>
        assert (Ep : post_processing (ex_env 2 (fun _ => true)) ex_args_post s2
                       = (Ok tt, tp, s3)) by (vm_compute; reflexivity);
        exists tiling, batches, ts, s1, tl, s2, tp, s3;
        split; [exact Es|]; split; [exact El|]; split; [exact Ep|];
        exact (H _ _ _ _ _ _ _ _ Es El Ep)
      end
    end
  end.
Defined.

(** ** C6: errors *)

Lemma sum_exp_nonneg (f : nat -> R) l :
  (0 <= fold_right Rplus 0 (map (fun k => exp (f k)) l))%R.
Proof.
  induction l as [|k l IH]; simpl; [lra|].
  pose proof (exp_pos (f k)). lra.
Qed.

Lemma sum_exp_ge (f : nat -> R) l k :
  In k l -> (exp (f k) <= fold_right Rplus 0 (map (fun k => exp (f k)) l))%R.
Proof.
  induction l as [|k' l IH]; simpl; [contradiction|].
  intros [<-|Hin].
  - pose proof (sum_exp_nonneg f l). lra.
  - pose proof (exp_pos (f k')). specialize (IH Hin). lra.
Qed.

(** With at least two classes the class-1 softmax lies in (0, 1]. *)
Lemma softmax1_bounds (f : nat -> R) n :
  (2 <= n)%nat -> (0 < softmax1 f n <= 1)%R.
Proof.
  intros Hn. unfold softmax1, sum_exp.
  assert (Hge : (exp (f 1%nat) <=
                 fold_right Rplus 0 (map (fun k => exp (f k)) (seq 0 n)))%R)
    by (apply sum_exp_ge, in_seq; lia).
  pose proof (exp_pos (f 1%nat)) as Hp.
  set (S := fold_right Rplus 0%R (map (fun k => exp (f k)) (seq 0 n))) in *.
  assert (HS : (0 < S)%R) by lra.
  split; [apply Rdiv_lt_0_compat; assumption|].
  apply (Rmult_le_reg_r S); [exact HS|].
  unfold Rdiv. rewrite Rmult_assoc, Rinv_l by lra. lra.
Qed.

Lemma main_mix_value0 :
  aat (image (final (main ex_env_mix ex_args_mix ex_dummy))) origin
    = softmax1 (fun _ => 0%R) 2.
Proof. vm_compute. reflexivity. Qed.

(** C6: an exception ends the run: a raised error is the last event of
    the trace, it is the run's outcome, and no other error was raised
    before it, so nothing retries or recovers.  Conversely a failed run
    records the error it fails with.  A failed run never reaches the
    persistence write, unless that write itself is what fails.  A failure
    can leave the output canvas mixed: in the example run the model
    answers the first batch of two tiles and fails on the second, so the
    canvas holds a written nonzero value at the origin and the initial
    zero at voxel (2,0,0), and nothing is written out. *)
Theorem main_errors (E : env) (a : args) (s0 : AbsoluteCanvas) :
  (forall e, In (ERaised e) (trace (main E a s0)) ->
     outcome (main E a s0) = Err e /\
     exists t', trace (main E a s0) = t' ++ [ERaised e] /\ NoRaise t') /\
  (forall e, outcome (main E a s0) = Err e ->
     In (ERaised e) (trace (main E a s0))) /\
  (forall e, outcome (main E a s0) = Err e ->
     count is_write (trace (main E a s0)) = 0%nat \/
     (write_n5_block E (output_path a) (output_data_set a) (start_coord a)
        (end_coord a) (image (final (main E a s0))) = Err e /\
      exists t', trace (main E a s0) =
        t' ++ [EWrite (output_path a) (output_data_set a) (start_coord a)
                 (end_coord a) (image (final (main E a s0))); ERaised e])) /\
  (outcome (main ex_env_mix ex_args_mix ex_dummy) = Err (ExternalError 0) /\
   count is_write (trace (main ex_env_mix ex_args_mix ex_dummy)) = 0%nat /\
   ashape (image (final (main ex_env_mix ex_args_mix ex_dummy))) = mkV3 3 1 1 /\
   aat (image (final (main ex_env_mix ex_args_mix ex_dummy))) origin <> 0%R /\
   aat (image (final (main ex_env_mix ex_args_mix ex_dummy))) (mkV3 2 0 0) = 0%R).
Proof.
  pose proof (WF_main E a s0) as W.
  split; [|split; [|split]].
  - intros e Hin.
    destruct (outcome (main E a s0)) as [u|e'|] eqn:Eo;
      [exfalso; exact (W e Hin)| |exfalso; exact (W e Hin)].
    destruct W as [t' [Et Hn]]. rewrite Et in Hin.
    apply in_app_or in Hin as [Hin|[Hin|[]]];
      [exfalso; exact (Hn e Hin)|].
    injection Hin as ->. split; [reflexivity|]. exists t'. auto.
  - intros e Eo. rewrite Eo in W. destruct W as [t' [-> _]].
    apply in_or_app. right. left. reflexivity.
  - intros e Eo.
    destruct (Nat.eq_dec (count is_write (trace (main E a s0))) 0) as [H0|H0];
      [left; exact H0|right].
    destruct (main_write_reached E a s0 H0)
      as [tiling [batches [ts [s1 [tl [s2 [tp [s3 [_ [_ [_ [Eo' [Et Efin]]]]]]]]]]]]].
    rewrite Efin. rewrite Et. rewrite Eo' in Eo.
    rewrite write_result_run in Eo |- *. simpl in Eo |- *.
    destruct (write_n5_block E _ _ _ _ _); unfold outcome in Eo; simpl in Eo;
      try discriminate.
    injection Eo as ->. split; [reflexivity|].
    exists (ts ++ tl ++ tp). unfold trace. simpl.
    rewrite <- !app_assoc. reflexivity.
  - split; [vm_compute; reflexivity|].
    split; [vm_compute; reflexivity|].
    split; [vm_compute; reflexivity|].
    split; [|vm_compute; reflexivity].
    rewrite main_mix_value0.
    pose proof (softmax1_bounds (fun _ => 0%R) 2 (le_n 2)). lra.
Qed.

Lemma main_errors_witness :
  In (ERaised (ExternalError 0)) (trace (main ex_env_mix ex_args_mix ex_dummy)).
Proof.
  destruct (main_errors ex_env_mix ex_args_mix ex_dummy) as [_ [H _]].
  apply H. vm_compute. reflexivity.
Defined.

(** ** C8: class-axis reduction before [writeSlice] *)

Lemma reduce_batch_In b ts ds d :
  reduce_batch b ts = Ok ds -> In d ds ->
  exists t, In t ts /\ reduce_tile b t = Ok d.
Proof.
  revert ds. induction ts as [|t ts IH]; intros ds H Hin; simpl in H.
  - injection H as <-. contradiction.
  - destruct (reduce_tile b t) as [d0|e|] eqn:Et;
      [destruct (reduce_batch b ts) as [l|e|] eqn:Er|..]; try discriminate.
    injection H as <-. destruct Hin as [<-|Hin].
    + exists t. split; [left; reflexivity|exact Et].
    + destruct (IH l eq_refl Hin) as [t' [Ht' Et']].
      exists t'. split; [right; exact Ht'|exact Et'].
Qed.

Lemma cons_app_ws_inv {A} (x y : A) t t1 t2 :
  x :: t = t1 ++ y :: t2 ->
  (t1 = [] /\ x = y /\ t = t2) \/ exists t1', t1 = x :: t1' /\ t = t1' ++ y :: t2.
Proof.
  destruct t1 as [|z t1']; simpl; intros H; injection H as -> ->.
  - left. auto.
  - right. exists t1'. auto.
Qed.

Lemma write_batch_ws tiling tile ds s t1 i d t2 :
  trace (write_batch tiling tile ds s) = t1 ++ EWriteSlice i d :: t2 ->
  In d ds /\ exists c,
    (exists c', writeSlice tiling c i d = Ok c') \/
    (exists e, writeSlice tiling c i d = Err e /\ t2 = [ERaised e] /\
               outcome (write_batch tiling tile ds s) = Err e).
Proof.
  revert tile s t1. induction ds as [|d0 rest IH]; intros tile s t1 H.
  - rewrite write_batch_nil in H. unfold trace in H. simpl in H.
    exfalso. exact (app_cons_not_nil _ _ _ H).
  - rewrite write_batch_cons in H |- *.
    destruct (writeSlice tiling s tile d0) as [c'|e|] eqn:W.
    + destruct (write_batch tiling (tile + 1) rest c') as [[r t] s'] eqn:Ew.
      unfold trace in H. simpl in H.
      apply cons_app_ws_inv in H as [[-> [Hx ->]]|[t1' [-> Ht]]].
      * injection Hx as -> ->. split; [left; reflexivity|].
        exists s. left. exists c'. exact W.
      * assert (Ht' : trace (write_batch tiling (tile + 1) rest c')
                        = t1' ++ EWriteSlice i d :: t2)
          by (rewrite Ew; exact Ht).
        destruct (IH _ _ _ Ht') as [Hin [c [Hok|[e [We [-> Eo]]]]]].
        -- split; [right; exact Hin|]. exists c. left. exact Hok.
        -- split; [right; exact Hin|]. exists c. right. exists e.
           rewrite Ew in Eo. unfold outcome in *. simpl in *. auto.
    + unfold trace in H. simpl in H.
      apply cons_app_ws_inv in H as [[-> [Hx Ht2]]|[t1' [-> Ht]]].
      * injection Hx as -> ->. subst t2. split; [left; reflexivity|].
        exists s. right. exists e. auto.
      * exfalso. destruct t1' as [|z [|z' t1']]; simpl in Ht; try discriminate.
    + exfalso. exact (writeSlice_not_hang _ _ _ _ W).
Qed.

Lemma predict_loop_ws E a tiling n tile batches s t1 i d t2 :
  trace (predict_loop E a tiling n tile batches s) = t1 ++ EWriteSlice i d :: t2 ->
  (exists inp outs t, In (EPredict inp) t1 /\ predict E inp = Ok outs /\
     In t outs /\ reduce_tile (as_binary_mask a) t = Ok d) /\
  exists c,
    (exists c', writeSlice tiling c i d = Ok c') \/
    (exists e, writeSlice tiling c i d = Err e /\ t2 = [ERaised e] /\
               outcome (predict_loop E a tiling n tile batches s) = Err e).
Proof.
  revert tile s t1. induction batches as [|inp rest IH]; intros tile s t1 H;
    rewrite predict_loop_run in H |- *;
    (destruct (tile <? n);
     [|exfalso; unfold trace in H; simpl in H;
       exact (app_cons_not_nil _ _ _ H)]).
  - exfalso. unfold trace in H. simpl in H.
    destruct t1 as [|z [|z' t1]]; simpl in H; discriminate.
  - destruct (predict E inp) as [outs|e|] eqn:Ep;
      [|exfalso; unfold trace in H; simpl in H;
        destruct t1 as [|z [|z' [|z'' t1]]]; simpl in H; discriminate..].
    destruct (reduce_batch (as_binary_mask a) outs) as [red|e|] eqn:Er;
      [|exfalso; unfold trace in H; simpl in H;
        destruct t1 as [|z [|z' [|z'' t1]]]; simpl in H; discriminate..].
    destruct (write_batch tiling tile red s) as [[[tile'|e|] tw] s1] eqn:Ew.
    + destruct (predict_loop E a tiling n tile' rest s1) as [[r tr] s2] eqn:El.
      unfold trace in H. simpl in H.
      apply cons_app_ws_inv in H as [[_ [Hx _]]|[t1' [-> Ht]]]; [discriminate|].
      apply app_eq_app in Ht as [l [[Htw Hl]|[Ht1 Htr]]].
      * destruct l as [|x l].
        -- simpl in Hl. subst tr.
           assert (Ht' : trace (predict_loop E a tiling n tile' rest s1)
                           = [] ++ EWriteSlice i d :: t2)
             by (rewrite El; reflexivity).
           destruct (IH _ _ _ Ht') as [[inp' [_ [_ [[] _]]]] _].
        -- simpl in Hl. injection Hl as <- ->.
           assert (Ht' : trace (write_batch tiling tile red s)
                           = t1' ++ EWriteSlice i d :: l)
             by (rewrite Ew; exact Htw).
           destruct (write_batch_ws _ _ _ _ _ _ _ _ Ht')
             as [Hin [c [Hok|[e [_ [_ Eo]]]]]];
             [|rewrite Ew in Eo; discriminate].
           destruct (reduce_batch_In _ _ _ _ Er Hin) as [t [Ht Hred]].
           split; [exists inp, outs, t; split; [left; reflexivity|auto]|].
           exists c. left. exact Hok.
      * assert (Ht' : trace (predict_loop E a tiling n tile' rest s1)
                        = l ++ EWriteSlice i d :: t2)
          by (rewrite El; exact Htr).
        destruct (IH _ _ _ Ht')
          as [[inp' [outs' [t [Hin' Hrest]]]] [c [Hok|[e [We [-> Eo]]]]]];
          (split; [exists inp', outs', t; split;
                   [right; rewrite Ht1; apply in_or_app; right; exact Hin'
                   |exact Hrest]|]).
        -- exists c. left. exact Hok.
        -- exists c. right. exists e. rewrite El in Eo.
           unfold outcome in *. simpl in *. repeat split; auto.
    + unfold trace in H. simpl in H.
      apply cons_app_ws_inv in H as [[_ [Hx _]]|[t1' [-> Ht]]]; [discriminate|].
      assert (Ht' : trace (write_batch tiling tile red s)
                      = t1' ++ EWriteSlice i d :: t2)
        by (rewrite Ew; exact Ht).
      destruct (write_batch_ws _ _ _ _ _ _ _ _ Ht')
        as [Hin [c [Hok|[e' [We [-> Eo]]]]]];
      destruct (reduce_batch_In _ _ _ _ Er Hin) as [t [Ht0 Hred]];
      (split; [exists inp, outs, t; split; [left; reflexivity|auto]|]).
      * exists c. left. exact Hok.
      * exists c. right. exists e'. rewrite Ew in Eo.
        unfold outcome in *. simpl in *. injection Eo as <-. auto.
    + unfold trace in H. simpl in H.
      apply cons_app_ws_inv in H as [[_ [Hx _]]|[t1' [-> Ht]]]; [discriminate|].
      assert (Ht' : trace (write_batch tiling tile red s)
                      = t1' ++ EWriteSlice i d :: t2)
        by (rewrite Ew; exact Ht).
      destruct (write_batch_ws _ _ _ _ _ _ _ _ Ht')
        as [Hin [c [Hok|[e' [_ [_ Eo]]]]]];
        [|rewrite Ew in Eo; discriminate].
      destruct (reduce_batch_In _ _ _ _ Er Hin) as [t [Ht0 Hred]].
      split; [exists inp, outs, t; split; [left; reflexivity|auto]|].
      exists c. left. exact Hok.
Qed.

(** An event of the prediction loop in a run's trace comes from the loop
    that follows a completed setup; a loop that fails ends the run. *)
Lemma main_loop_split E a s ev :
  In ev (trace (main E a s)) -> rank ev = 6%nat ->
  exists tiling batches ts s1 rest,
    setup E a s = (Ok (tiling, batches), ts, s1) /\
    In ev (trace (predict_loop E a tiling (Z.of_nat (length (tiles tiling))) 0
                    batches s1)) /\
    trace (main E a s) =
      ts ++ trace (predict_loop E a tiling (Z.of_nat (length (tiles tiling))) 0
                     batches s1) ++ rest /\
    (forall e, outcome (predict_loop E a tiling (Z.of_nat (length (tiles tiling)))
                          0 batches s1) = Err e ->
       rest = [] /\ outcome (main E a s) = Err e).
Proof.
  intros Hin Hr.
  assert (Hnr : is_raised ev = false)
    by (destruct ev; simpl in Hr |- *; try discriminate; reflexivity).
  pose proof (setup_ranks E a s) as HS.
  rewrite main_run in Hin |- *.
  destruct (setup E a s) as [[[[tiling batches]|e|] ts] s1] eqn:Es;
    unfold trace in HS; simpl in HS;
    [|exfalso; unfold trace in Hin; simpl in Hin; revert Hin;
      apply (Forall_rank_not_In _ _ _ HS); [lia|exact Hnr]..].
  exists tiling, batches, ts, s1.
  assert (Nts : ~ In ev ts)
    by (apply (Forall_rank_not_In _ _ _ HS); [lia|exact Hnr]).
  destruct (predict_loop E a tiling _ 0 batches s1) as [[[[]|e|] tl] s2] eqn:El;
    unfold trace, outcome; simpl.
  - pose proof (Emits_post_processing E a s2) as HP.
    assert (Ntp : forall tp s3 r, post_processing E a s2 = (r, tp, s3) -> ~ In ev tp).
    { intros tp s3 r Ep. rewrite Ep in HP. unfold trace in HP. simpl in HP.
      apply (Forall_rank_not_In _ _ _ HP); [lia|exact Hnr]. }
    destruct (post_processing E a s2) as [[[[]|e|] tp] s3] eqn:Ep.
    + pose proof (Emits_write_result E a s3) as HW.
      destruct (write_result E a s3) as [[r tw] s4] eqn:Ew.
      unfold trace in HW. simpl in HW.
      exists (tp ++ tw). unfold trace in Hin. simpl in Hin.
      split; [reflexivity|]. split.
      * apply in_app_or in Hin as [H|H]; [contradiction|].
        apply in_app_or in H as [H'|H']; [exact H'|exfalso].
        apply in_app_or in H' as [H''|H''];
          [exact (Ntp _ _ _ eq_refl H'')|].
        revert H''. apply (Forall_rank_not_In _ _ _ HW); [lia|exact Hnr].
      * split; [reflexivity|]. discriminate.
    + exists tp. unfold trace in Hin. simpl in Hin.
      split; [reflexivity|]. split; [|split; [reflexivity|discriminate]].
      apply in_app_or in Hin as [H|H]; [contradiction|].
      apply in_app_or in H as [H|H]; [exact H|].
      exfalso. exact (Ntp _ _ _ eq_refl H).
    + exists tp. unfold trace in Hin. simpl in Hin.
      split; [reflexivity|]. split; [|split; [reflexivity|discriminate]].
      apply in_app_or in Hin as [H|H]; [contradiction|].
      apply in_app_or in H as [H|H]; [exact H|].
      exfalso. exact (Ntp _ _ _ eq_refl H).
  - exists []. unfold trace in Hin. simpl in Hin.
    rewrite app_nil_r. split; [reflexivity|]. split.
    + apply in_app_or in Hin as [H|H]; [contradiction|exact H].
    + split; [reflexivity|]. intros e' H. injection H as <-. auto.
  - exists []. unfold trace in Hin. simpl in Hin.
    rewrite app_nil_r. split; [reflexivity|]. split.
    + apply in_app_or in Hin as [H|H]; [contradiction|exact H].
    + split; [reflexivity|]. discriminate.
Qed.

(** C8: every tile written by [writeSlice] is the reduction of a tile the
    model returned for an earlier prediction call: with [as_binary_mask]
    its values are the argmax over the class axis, otherwise they are the
    class-1 softmax over that axis and lie in (0, 1].  The tile has the
    model output shape, unless [writeSlice] rejects it with ShapeError or
    IndexError, which ends the run with that error right after the call. *)
Theorem main_reduction (E : env) (a : args) (s0 : AbsoluteCanvas) (i : Z) (d : arr)
    (Hin : In (EWriteSlice i d) (trace (main E a s0))) :
  exists t1 t2 inp outs t,
    trace (main E a s0) = t1 ++ EWriteSlice i d :: t2 /\
    In (EPredict inp) t1 /\ predict E inp = Ok outs /\ In t outs /\
    reduce_tile (as_binary_mask a) t = Ok d /\
    (if as_binary_mask a
     then d = mkArr (pshape t) (fun p => INR (argmax (pat t p) (pclasses t)))
     else d = mkArr (pshape t) (fun p => softmax1 (pat t p) (pclasses t)) /\
          forall p, (0 < aat d p <= 1)%R) /\
    (ashape d = model_output_shape a \/
     (t2 = [ERaised ShapeError] /\ outcome (main E a s0) = Err ShapeError) \/
     (t2 = [ERaised IndexError] /\ outcome (main E a s0) = Err IndexError)).
Proof.
  destruct (main_loop_split E a s0 _ Hin eq_refl)
    as [tiling [batches [ts [s1 [rest [Es [Hl [Et Herr]]]]]]]].
  apply in_split in Hl as [u1 [u2 Hu]].
  destruct (predict_loop_ws _ _ _ _ _ _ _ _ _ _ _ Hu)
    as [[inp [outs [t [Hpi [Hp [Ht Hred]]]]]] [c Hws]].
  assert (Hplan : plan_of a = Planned tiling)
    by (apply (setup_outcome_plan E a s0 tiling batches); rewrite Es; reflexivity).
  assert (Hshape : writeSlice tiling c i d <> Err IndexError ->
                   writeSlice tiling c i d <> Err ShapeError ->
                   ashape d = model_output_shape a).
  { intros H1 H2. destruct (writeSlice_shape _ _ _ _ H1 H2) as [tt' [Hn ->]].
    exact (UnetTiling3D_output_extent _ _ _ _ _ _ Hplan (nth_error_In _ _ Hn)). }
  exists (ts ++ u1), (u2 ++ rest), inp, outs, t.
  split; [rewrite Et, Hu, <- !app_assoc; reflexivity|].
  split; [apply in_or_app; right; exact Hpi|].
  split; [exact Hp|]. split; [exact Ht|]. split; [exact Hred|].
  split.
  - unfold reduce_tile in Hred. destruct (as_binary_mask a).
    + destruct (pclasses t =? 0)%nat; [discriminate|].
      injection Hred as <-. reflexivity.
    + destruct (pclasses t <? 2)%nat eqn:Hc; [discriminate|].
      injection Hred as <-. split; [reflexivity|].
      intros p. simpl. apply softmax1_bounds.
      apply Nat.ltb_ge in Hc. exact Hc.
  - destruct Hws as [[c' Hok]|[e [We [-> Eo]]]].
    + left. apply Hshape; rewrite Hok; discriminate.
    + destruct (Herr e Eo) as [-> Eom]. rewrite app_nil_r, Eom.
      destruct e;
        first [left; apply Hshape; rewrite We; discriminate
              |right; left; split; reflexivity
              |right; right; split; reflexivity].
Qed.

Lemma main_reduction_witness :
  exists i d,
    In (EWriteSlice i d)
      (trace (main (ex_env 2 (fun _ => true))
                (ex_args (mkV3 2 1 1) (Some 2%R) false 1) ex_dummy)) /\
    exists t1 t2 inp outs t,
      trace (main (ex_env 2 (fun _ => true))
               (ex_args (mkV3 2 1 1) (Some 2%R) false 1) ex_dummy)
        = t1 ++ EWriteSlice i d :: t2 /\
      In (EPredict inp) t1 /\
      predict (ex_env 2 (fun _ => true)) inp = Ok outs /\ In t outs /\
      reduce_tile false t = Ok d.
Proof.
  match eval vm_compute in (trace (main (ex_env 2 (fun _ => true))
                              (ex_args (mkV3 2 1 1) (Some 2%R) false 1) ex_dummy))
  with context [EWriteSlice ?i ?d] =>
    assert (Hin : In (EWriteSlice i d)
                    (trace (main (ex_env 2 (fun _ => true))
                              (ex_args (mkV3 2 1 1) (Some 2%R) false 1) ex_dummy)))
      by (vm_compute; repeat (first [left; reflexivity | right]));
    exists i, d; split; [exact Hin|];
    destruct (main_reduction _ _ _ _ _ Hin)
      as [t1 [t2 [inp [outs [t [H1 [H2 [H3 [H4 [H5 _]]]]]]]]]];
    exists t1, t2, inp, outs, t; auto
  end.
Defined.

(** * Further properties of the orchestrator *)

(** ** Batching of the tile dataset (line 214) *)

Lemma chunks_nil {A} n f : @chunks A n f [] = [].
Proof. destruct f; reflexivity. Qed.

Lemma chunks_spec {A} n f (l : list A) :
  (0 < n)%nat -> (length l <= f)%nat ->
  concat (chunks n f l) = l /\
  Forall (fun b => b <> [] /\ (length b <= n)%nat) (chunks n f l) /\
  Forall (fun b => length b = n) (removelast (chunks n f l)).
Proof.
  intros Hn. revert l. induction f as [|f IH]; intros l Hl.
  - destruct l; [|simpl in Hl; lia]. simpl. auto.
  - destruct l as [|x l']; [simpl; auto|].
    cbn [chunks]. set (l := x :: l') in *.
    assert (Hs : (length (skipn n l) <= f)%nat)
      by (rewrite length_skipn; lia).
    destruct (IH _ Hs) as [Hc [Hf Hr]].
    split; [cbn [concat]; rewrite Hc; apply firstn_skipn|].
    split.
    + constructor; [|exact Hf]. split; [|apply firstn_le_length].
      destruct n; [lia|]. simpl. discriminate.
    + destruct (chunks n f (skipn n l)) as [|b r] eqn:Ec; [constructor|].
      change (removelast (firstn n l :: b :: r))
        with (firstn n l :: removelast (b :: r)).
      constructor; [|exact Hr].
      assert (Hne : skipn n l <> []) by (intros X; rewrite X, chunks_nil in Ec; discriminate).
      rewrite length_firstn.
      assert (n < length l)%nat.
      { destruct (Nat.lt_ge_cases n (length l)) as [?|X]; [assumption|].
        exfalso. apply Hne. apply skipn_all2. exact X. }
      lia.
Qed.

(** [Dataset.batch(n)] with a positive batch size cuts the tile windows
    into batches which, concatenated, give back the windows in order; every
    batch is non-empty and holds at most [n] windows, and every batch but
    the last holds exactly [n]. *)
Theorem dataset_batch_partition {A} (n : Z) (l : list A) (Hn : 0 < n) :
  exists bs,
    dataset_batch n l = Ok bs /\
    concat bs = l /\
    Forall (fun b => b <> [] /\ Z.of_nat (length b) <= n) bs /\
    Forall (fun b => Z.of_nat (length b) = n) (removelast bs).
Proof.
  unfold dataset_batch. destruct (n <=? 0) eqn:H; [apply Z.leb_le in H; lia|].
  exists (chunks (Z.to_nat n) (length l) l). split; [reflexivity|].
  destruct (chunks_spec (Z.to_nat n) (length l) l ltac:(lia) (le_n _))
    as [Hc [Hf Hr]].
  split; [exact Hc|]. split.
  - eapply Forall_impl; [|exact Hf]. intros b [Hb Hle]. split; [exact Hb|].
    apply Nat2Z.inj_le in Hle. rewrite Z2Nat.id in Hle by lia. exact Hle.
  - eapply Forall_impl; [|exact Hr]. intros b Hb. rewrite Hb. apply Z2Nat.id. lia.
Qed.

Lemma dataset_batch_partition_witness :
  exists bs,
    dataset_batch 2 [1; 2; 3]%nat = Ok bs /\ concat bs = [1; 2; 3]%nat /\
    Forall (fun b => b <> [] /\ Z.of_nat (length b) <= 2) bs /\
    Forall (fun b => Z.of_nat (length b) = 2) (removelast bs).
Proof. apply (dataset_batch_partition 2 [1; 2; 3]%nat). lia. Defined.

(** ** Reducing the class axis (lines 228-233) *)

Section Argmax.
Variable score : nat -> R.

Lemma argmax_fold_inv len m b :
  argmax_inv score m b ->
  argmax_inv score (m + len)
    (fold_left (fun best k => if Rlt_dec (score best) (score k) then k else best)
       (seq m len) b).
Proof.
  revert m b. induction len as [|len IH]; intros m b [Hb [Hle Hlt]].
  - rewrite Nat.add_0_r. repeat split; assumption.
  - cbn [seq fold_left]. rewrite <- Nat.add_succ_comm. apply IH.
    destruct (Rlt_dec (score b) (score m)) as [X|X].
    + split; [lia|]. split.
      * intros k Hk. destruct (Nat.eq_dec k m) as [->|Hkm]; [lra|].
        specialize (Hle k ltac:(lia)). lra.
      * intros k Hk. specialize (Hle k ltac:(lia)). lra.
    + split; [lia|]. split; [|exact Hlt].
      intros k Hk. destruct (Nat.eq_dec k m) as [->|Hkm]; [lra|].
      apply Hle. lia.
Qed.
End Argmax.

(** [np.argmax] over a non-empty class axis returns a class index, its
    score is maximal, and no earlier class reaches it (the first maximum
    is taken on ties). *)
Theorem argmax_spec (score : nat -> R) (n : nat) (Hn : (1 <= n)%nat) :
  (argmax score n < n)%nat /\
  (forall k, (k < n)%nat -> score k <= score (argmax score n))%R /\
  (forall k, (k < argmax score n)%nat -> score k < score (argmax score n))%R.
Proof.
  assert (H0 : argmax_inv score 1 0).
  { split; [lia|]. split; [intros k Hk; replace k with 0%nat by lia; lra|].
    intros k Hk; lia. }
  pose proof (argmax_fold_inv score (n - 1) 1 0 H0) as H.
  replace (1 + (n - 1))%nat with n in H by lia.
  exact H.
Qed.

Lemma argmax_spec_witness :
  (argmax (fun k => INR k) 3 < 3)%nat /\
  (forall k, (k < 3)%nat -> INR k <= INR (argmax (fun k => INR k) 3))%R /\
  (forall k, (k < argmax (fun k => INR k) 3)%nat ->
     INR k < INR (argmax (fun k => INR k) 3))%R.
Proof. apply (argmax_spec (fun k => INR k) 3). lia. Defined.

(** ** The prediction loop inside a run *)

Lemma Forall_late_ranks (P : event -> Prop) t :
  Forall (fun ev => P ev \/ is_raised ev = true) t ->
  (forall ev, P ev -> (7 <= rank ev)%nat) ->
  Forall (fun ev => (7 <= rank ev)%nat \/ is_raised ev = true) t.
Proof.
  intros H HP. eapply Forall_impl; [|exact H]. intros ev [X|X]; [left; auto|right; auto].
Qed.

Lemma main_structure E a s :
  (exists tiling batches ts s1 rest,
     setup E a s = (Ok (tiling, batches), ts, s1) /\
     trace (main E a s) =
       ts ++ trace (predict_loop E a tiling (Z.of_nat (length (tiles tiling))) 0
                      batches s1) ++ rest /\
     Forall (fun ev => (7 <= rank ev)%nat \/ is_raised ev = true) rest /\
     (forall e, outcome (predict_loop E a tiling (Z.of_nat (length (tiles tiling)))
                           0 batches s1) = Err e ->
        rest = [] /\ outcome (main E a s) = Err e)) \/
  ((forall r, outcome (setup E a s) <> Ok r) /\
   trace (main E a s) = trace (setup E a s) /\
   outcome (main E a s) = match outcome (setup E a s) with
                          | Ok _ => Ok tt | Err e => Err e | Hang => Hang end).
Proof.
  destruct (setup E a s) as [[r ts] s1] eqn:Es.
  destruct r as [[tiling batches]|e|];
    [|right; rewrite main_run, Es; unfold outcome, trace; simpl;
      split; [intros r; discriminate|split; reflexivity]..].
  left. exists tiling, batches, ts, s1. rewrite main_run, Es.
  destruct (predict_loop E a tiling _ 0 batches s1) as [[[[]|e|] tl] s2] eqn:El;
    unfold trace, outcome; simpl.
  - pose proof (Emits_post_processing E a s2) as HP.
    destruct (post_processing E a s2) as [[[[]|e|] tp] s3] eqn:Ep;
      unfold trace in HP; simpl in HP.
    + pose proof (Emits_write_result E a s3) as HW.
      destruct (write_result E a s3) as [[r tw] s4] eqn:Ew.
      unfold trace in HW. simpl in HW.
      exists (tp ++ tw). split; [reflexivity|]. split; [reflexivity|]. split; [|intros ? ?; discriminate].
      apply Forall_app. split.
      * apply (Forall_late_ranks _ _ HP). intros ev [X|X]; lia.
      * apply (Forall_late_ranks _ _ HW). intros ev X; lia.
    + exists tp. split; [reflexivity|]. split; [reflexivity|]. split; [|intros ? ?; discriminate].
      apply (Forall_late_ranks _ _ HP). intros ev [X|X]; lia.
    + exists tp. split; [reflexivity|]. split; [reflexivity|]. split; [|intros ? ?; discriminate].
      apply (Forall_late_ranks _ _ HP). intros ev [X|X]; lia.
  - exists []. rewrite app_nil_r. split; [reflexivity|]. split; [reflexivity|]. split; [constructor|].
    intros e' H. injection H as <-. auto.
  - exists []. rewrite app_nil_r. split; [reflexivity|]. split; [reflexivity|]. split; [constructor|].
    intros ? ?; discriminate.
Qed.

Lemma flat_map_no_loop {B} (g : event -> list B) (P : event -> Prop) t :
  (forall ev, rank ev <> 6%nat -> g ev = []) ->
  (forall ev, P ev -> rank ev <> 6%nat) ->
  Forall (fun ev => P ev \/ is_raised ev = true) t -> flat_map g t = [].
Proof.
  intros Hg HP H. induction H as [|ev t [X|X] _ IH]; [reflexivity| |];
    simpl; rewrite IH, Hg; try reflexivity.
  - apply HP, X.
  - destruct ev; simpl in *; discriminate.
Qed.

(** What a run shows of an observation that only sees loop events is what
    its prediction loop shows of it. *)
Lemma main_flat_map {B} (g : event -> list B) E a s :
  (forall ev, rank ev <> 6%nat -> g ev = []) ->
  flat_map g (trace (main E a s)) =
  match setup E a s with
  | (Ok (tiling, batches), _, s1) =>
      flat_map g (trace (predict_loop E a tiling (Z.of_nat (length (tiles tiling)))
                           0 batches s1))
  | _ => []
  end.
Proof.
  intros Hg. pose proof (setup_ranks E a s) as HS.
  destruct (main_structure E a s)
    as [[tiling [batches [ts [s1 [rest [Es [Et [Hr _]]]]]]]]|[Hno [Et _]]].
  - rewrite Es in HS |- *. rewrite Et, !flat_map_app. unfold trace in HS. simpl in HS.
    rewrite (flat_map_no_loop g (fun ev => (rank ev <= 5)%nat) ts Hg) by (assumption || (intros ev X; lia)).
    rewrite (flat_map_no_loop g (fun ev => (7 <= rank ev)%nat) rest Hg) by (assumption || (intros ev X; lia)).
    rewrite app_nil_r. reflexivity.
  - rewrite Et. rewrite (flat_map_no_loop g (fun ev => (rank ev <= 5)%nat) _ Hg) by (assumption || (intros ev X; lia)).
    destruct (setup E a s) as [[[[tiling batches]|e|] ts] s1]; [|reflexivity..].
    exfalso. exact (Hno _ eq_refl).
Qed.

Lemma app_mid_split {A} (ts tl rest t1 t2 : list A) (x : A) :
  ts ++ tl ++ rest = t1 ++ x :: t2 -> ~ In x ts -> ~ In x rest ->
  exists u1 u2, tl = u1 ++ x :: u2 /\ t1 = ts ++ u1 /\ t2 = u2 ++ rest.
Proof.
  intros H Nts Nrest.
  apply app_eq_app in H as [l [[Hts Hl]|[Ht1 Hl]]].
  - destruct l as [|y l].
    + rewrite app_nil_r in Hts. subst t1. simpl in Hl.
      destruct tl as [|y tl]; simpl in Hl.
      * exfalso. apply Nrest. rewrite <- Hl. left. reflexivity.
      * injection Hl as <- ->. exists [], tl. rewrite app_nil_r. auto.
    + exfalso. simpl in Hl. injection Hl as <- _. apply Nts. rewrite Hts.
      apply in_or_app. right. left. reflexivity.
  - apply app_eq_app in Hl as [l2 [[Htl Hr]|[Hl3 Hr]]].
    + destruct l2 as [|y l2].
      * exfalso. apply Nrest. simpl in Hr. rewrite <- Hr. left. reflexivity.
      * simpl in Hr. injection Hr as <- ->. exists l, l2. auto.
    + exfalso. apply Nrest. rewrite Hr. apply in_or_app. right. left. reflexivity.
Qed.

(** An occurrence of a loop event in a run's trace is an occurrence in the
    trace of the loop that follows a completed setup. *)
Lemma main_loop_occurrence E a s t1 ev t2 :
  trace (main E a s) = t1 ++ ev :: t2 -> rank ev = 6%nat ->
  exists tiling batches ts s1 u1 u2 rest,
    setup E a s = (Ok (tiling, batches), ts, s1) /\
    trace (predict_loop E a tiling (Z.of_nat (length (tiles tiling))) 0 batches s1)
      = u1 ++ ev :: u2 /\
    t1 = ts ++ u1 /\ t2 = u2 ++ rest /\
    Forall (fun x => (rank x <= 5)%nat \/ is_raised x = true) ts /\
    (forall e, outcome (predict_loop E a tiling (Z.of_nat (length (tiles tiling)))
                          0 batches s1) = Err e ->
       rest = [] /\ outcome (main E a s) = Err e).
Proof.
  intros Ht Hr.
  assert (Hnr : is_raised ev = false)
    by (destruct ev; simpl in Hr |- *; try discriminate; reflexivity).
  pose proof (setup_ranks E a s) as HS.
  destruct (main_structure E a s)
    as [[tiling [batches [ts [s1 [rest [Es [Et [Hrest Herr]]]]]]]]|[_ [Et _]]].
  - rewrite Es in HS. unfold trace in HS. simpl in HS.
    rewrite Et in Ht.
    destruct (app_mid_split _ _ _ _ _ _ Ht) as [u1 [u2 [Hl [-> ->]]]].
    + apply (Forall_rank_not_In _ _ _ HS); [intro; lia|exact Hnr].
    + apply (Forall_rank_not_In _ _ _ Hrest); [intro; lia|exact Hnr].
    + exists tiling, batches, ts, s1, u1, u2, rest.
      split; [assumption|]. split; [assumption|]. split; [reflexivity|].
      split; [reflexivity|]. split; assumption.
  - exfalso. revert Hr. rewrite Et in Ht.
    assert (Hin : In ev (trace (setup E a s)))
      by (rewrite Ht; apply in_or_app; right; left; reflexivity).
    rewrite Forall_forall in HS. destruct (HS _ Hin) as [X|X]; [lia|congruence].
Qed.

(** *** The [writeSlice] calls of one batch *)

Lemma write_batch_ranks tiling tile ds s :
  Forall (fun ev => is_writeslice ev = true \/ is_raised ev = true)
    (trace (write_batch tiling tile ds s)).
Proof.
  revert tile s. induction ds as [|d rest IH]; intros tile s;
    [rewrite write_batch_nil; constructor|].
  rewrite write_batch_cons.
  destruct (writeSlice tiling s tile d) as [c'|e|].
  2,3: unfold trace; simpl;
    repeat (apply Forall_cons; [simpl; first [left; reflexivity|right; reflexivity]|]);
    apply Forall_nil.
  specialize (IH (tile + 1) c').
  destruct (write_batch tiling (tile + 1) rest c') as [[r t] s'].
  constructor; [left; reflexivity|exact IH].
Qed.

Lemma write_batch_no_predict tiling tile ds s inp :
  ~ In (EPredict inp) (trace (write_batch tiling tile ds s)).
Proof.
  apply (Forall_rank_not_In _ _ _ (write_batch_ranks tiling tile ds s));
    simpl; [discriminate|reflexivity].
Qed.

Lemma write_batch_stream tiling tile ds s :
  exists k,
    ws_data (trace (write_batch tiling tile ds s)) = firstn k ds /\
    count is_writeslice (trace (write_batch tiling tile ds s)) = k /\
    pred_inputs (trace (write_batch tiling tile ds s)) = [] /\
    (forall E b, pred_reduced E b (trace (write_batch tiling tile ds s)) = []) /\
    (forall tile', outcome (write_batch tiling tile ds s) = Ok tile' ->
       k = length ds /\ tile' = tile + Z.of_nat k).
Proof.
  revert tile s. induction ds as [|d rest IH]; intros tile s.
  - exists 0%nat. rewrite write_batch_nil. unfold trace, outcome. simpl.
    split; [reflexivity|]. split; [reflexivity|]. split; [reflexivity|].
    split; [reflexivity|].
    intros tile' H. injection H as <-. split; [reflexivity|lia].
  - rewrite write_batch_cons.
    destruct (writeSlice tiling s tile d) as [c'|e|].
    + destruct (IH (tile + 1) c') as [k [Hd [Hc [Hp [Hr Hok]]]]].
      destruct (write_batch tiling (tile + 1) rest c') as [[r t] s'].
      exists (S k). unfold trace, outcome in *. simpl in *.
      split; [|split; [|split; [|split]]].
      * change (ws_data (EWriteSlice tile d :: t)) with (d :: ws_data t).
        rewrite Hd. reflexivity.
      * unfold count in *. simpl. rewrite Hc. reflexivity.
      * exact Hp.
      * exact Hr.
      * intros tile' H. destruct (Hok tile' H) as [-> ->]. split; [reflexivity|lia].
    + exists 1%nat. unfold trace, outcome. simpl.
      split; [reflexivity|]. split; [reflexivity|]. split; [reflexivity|].
      split; [reflexivity|]. intros ? H. discriminate H.
    + exists 1%nat. unfold trace, outcome. simpl.
      split; [reflexivity|]. split; [reflexivity|]. split; [reflexivity|].
      split; [reflexivity|]. intros ? H. discriminate H.
Qed.

(** *** Loop invariants *)

Lemma predict_loop_stream E a tiling n tile batches s :
  exists m,
    pred_inputs (trace (predict_loop E a tiling n tile batches s)) = firstn m batches /\
    exists rest,
      pred_reduced E (as_binary_mask a) (trace (predict_loop E a tiling n tile batches s))
        = ws_data (trace (predict_loop E a tiling n tile batches s)) ++ rest /\
      (outcome (predict_loop E a tiling n tile batches s) = Ok tt -> rest = []).
Proof.
  revert tile s. induction batches as [|inp bs IH]; intros tile s;
    rewrite predict_loop_run; destruct (tile <? n);
    try (exists 0%nat; split; [reflexivity|]; exists [];
         split; [reflexivity|intros _; reflexivity]).
  destruct (predict E inp) as [outs|e|] eqn:Ep;
    [|exists 1%nat; split; [reflexivity|]; exists [];
      unfold pred_reduced; simpl; rewrite Ep; split; [reflexivity|discriminate]..].
  destruct (reduce_batch (as_binary_mask a) outs) as [red|e|] eqn:Er;
    [|exists 1%nat; split; [reflexivity|]; exists [];
      unfold pred_reduced; simpl; rewrite Ep, Er; split; [reflexivity|discriminate]..].
  destruct (write_batch_stream tiling tile red s) as [k [Hd [_ [Hp [Hr Hok]]]]].
  destruct (write_batch tiling tile red s) as [[[tile'|e|] tw] s1] eqn:Ew;
    unfold trace, outcome in *; cbn [fst snd] in *.
  - destruct (Hok tile' eq_refl) as [Hk _].
    destruct (IH tile' s1) as [m [Hm [rest [Hrest Hok']]]].
    destruct (predict_loop E a tiling n tile' bs s1) as [[r tr] s2];
      cbn [fst snd] in *.
    exists (S m). split.
    + change (pred_inputs (EPredict inp :: tw ++ tr))
        with (inp :: pred_inputs (tw ++ tr)).
      unfold pred_inputs in *. rewrite flat_map_app, Hp, Hm. reflexivity.
    + exists rest.
      change (ws_data (EPredict inp :: tw ++ tr)) with (ws_data (tw ++ tr)).
      unfold pred_reduced, ws_data in *. simpl. rewrite Ep, Er.
      rewrite !flat_map_app, (Hr E (as_binary_mask a)), Hd, Hrest, Hk, firstn_all.
      rewrite app_nil_l, app_assoc. split; [reflexivity|exact Hok'].
  - exists 1%nat. split.
    + change (pred_inputs (EPredict inp :: tw)) with (inp :: pred_inputs tw).
      rewrite Hp. reflexivity.
    + exists (skipn k red).
      change (ws_data (EPredict inp :: tw)) with (ws_data tw).
      unfold pred_reduced, ws_data in *. simpl. rewrite Ep, Er.
      rewrite (Hr E (as_binary_mask a)), Hd, app_nil_r, firstn_skipn.
      split; [reflexivity|discriminate].
  - exists 1%nat. split.
    + change (pred_inputs (EPredict inp :: tw)) with (inp :: pred_inputs tw).
      rewrite Hp. reflexivity.
    + exists (skipn k red).
      change (ws_data (EPredict inp :: tw)) with (ws_data tw).
      unfold pred_reduced, ws_data in *. simpl. rewrite Ep, Er.
      rewrite (Hr E (as_binary_mask a)), Hd, app_nil_r, firstn_skipn.
      split; [reflexivity|discriminate].
Qed.

Lemma in_mid {A} (l u1 u2 : list A) x : l = u1 ++ x :: u2 -> In x l.
Proof. intros ->. apply in_or_app. right. left. reflexivity. Qed.

Lemma predict_loop_head E a tiling n tile inp bs s :
  tile < n ->
  exists r, trace (predict_loop E a tiling n tile (inp :: bs) s) = EPredict inp :: r.
Proof.
  intros Hlt. apply Z.ltb_lt in Hlt. rewrite predict_loop_run, Hlt.
  destruct (predict E inp) as [outs|e|]; try (eexists; reflexivity).
  destruct (reduce_batch (as_binary_mask a) outs) as [red|e|]; try (eexists; reflexivity).
  destruct (write_batch tiling tile red s) as [[[tile'|e|] tw] s1];
    try (eexists; reflexivity).
  destruct (predict_loop E a tiling n tile' bs s1) as [[r tr] s2].
  eexists; reflexivity.
Qed.

(** Each model call of the loop starts a round of the loop: the round runs
    with tile counter [tile + #writeSlice calls before it], below the
    bound, and decides the loop's outcome. *)
Lemma predict_loop_at_call E a tiling n tile batches s u1 inp u2 :
  trace (predict_loop E a tiling n tile batches s) = u1 ++ EPredict inp :: u2 ->
  exists tile0 bs s0,
    tile0 = tile + Z.of_nat (count is_writeslice u1) /\ tile0 < n /\
    trace (predict_loop E a tiling n tile0 (inp :: bs) s0) = EPredict inp :: u2 /\
    outcome (predict_loop E a tiling n tile batches s) =
      outcome (predict_loop E a tiling n tile0 (inp :: bs) s0).
Proof.
  revert tile s u1. induction batches as [|inp0 bs IH]; intros tile s u1 H.
  - exfalso. apply in_mid in H. rewrite predict_loop_run in H.
    destruct (tile <? n); unfold trace in H; simpl in H;
      [destruct H as [H|H]; [discriminate|exact H]|exact H].
  - destruct (tile <? n) eqn:Hlt.
    2: { exfalso. apply in_mid in H. rewrite predict_loop_run, Hlt in H.
         unfold trace in H. simpl in H. exact H. }
    destruct u1 as [|y u1'].
    + destruct (predict_loop_head E a tiling n tile inp0 bs s) as [r Hr];
        [apply Z.ltb_lt; exact Hlt|].
      rewrite Hr in H. simpl in H. injection H as -> ->.
      exists tile, bs, s. split; [unfold count; simpl; lia|].
      split; [apply Z.ltb_lt; exact Hlt|]. split; [exact Hr|reflexivity].
    + rewrite predict_loop_run, Hlt in H. rewrite predict_loop_run, Hlt.
      destruct (predict E inp0) as [outs|e|];
        [|exfalso; unfold trace in H; simpl in H; injection H as _ H;
          apply in_mid in H; simpl in H; intuition discriminate..].
      destruct (reduce_batch (as_binary_mask a) outs) as [red|e|];
        [|exfalso; unfold trace in H; simpl in H; injection H as _ H;
          apply in_mid in H; simpl in H; intuition discriminate..].
      destruct (write_batch_stream tiling tile red s) as [k [_ [Hc [_ [_ Hok]]]]].
      pose proof (write_batch_no_predict tiling tile red s inp) as Hnp.
      destruct (write_batch tiling tile red s) as [[[tile'|e|] tw] s1] eqn:Ew;
        unfold trace, outcome in Hc, Hok, Hnp; cbn [fst snd] in Hc, Hok, Hnp;
        [|exfalso; unfold trace in H; simpl in H; injection H as _ H;
          apply in_mid in H; exact (Hnp H)..].
      destruct (Hok tile' eq_refl) as [_ Ht'].
      destruct (predict_loop E a tiling n tile' bs s1) as [[r tr] s2] eqn:El.
      unfold trace in H. cbn [fst snd] in H. injection H as <- H.
      assert (Hsplit : exists l, u1' = tw ++ l /\ tr = l ++ EPredict inp :: u2).
      { apply app_eq_app in H as [l [[Htw Hl]|[Hu Hl]]].
        - destruct l as [|y l].
          + exists []. rewrite app_nil_r in Htw |- *. split; [symmetry; exact Htw|].
            symmetry. exact Hl.
          + exfalso. simpl in Hl. injection Hl as <- _. apply Hnp. rewrite Htw.
            apply in_or_app. right. left. reflexivity.
        - exists l. split; [exact Hu|exact Hl]. }
      destruct Hsplit as [l [-> Htr]].
      destruct (IH tile' s1 l) as [tile0 [bs0 [s0 [H0 [Hlt0 [Htr0 Ho0]]]]]];
        [rewrite El; exact Htr|].
      exists tile0, bs0, s0. split; [|split; [exact Hlt0|split; [exact Htr0|]]].
      * rewrite H0, Ht', <- Hc, count_cons, count_app. simpl. lia.
      * rewrite <- Ho0, El. reflexivity.
Qed.

Lemma pred_inputs_main E a s :
  pred_inputs (trace (main E a s)) =
  match setup E a s with
  | (Ok (tiling, batches), _, s1) =>
      pred_inputs (trace (predict_loop E a tiling (Z.of_nat (length (tiles tiling)))
                            0 batches s1))
  | _ => []
  end.
Proof.
  unfold pred_inputs. apply main_flat_map.
  intros [] Hr; simpl in *; try reflexivity; exfalso; apply Hr; reflexivity.
Qed.

Lemma ws_data_main E a s :
  ws_data (trace (main E a s)) =
  match setup E a s with
  | (Ok (tiling, batches), _, s1) =>
      ws_data (trace (predict_loop E a tiling (Z.of_nat (length (tiles tiling)))
                        0 batches s1))
  | _ => []
  end.
Proof.
  unfold ws_data. apply main_flat_map.
  intros [] Hr; simpl in *; try reflexivity; exfalso; apply Hr; reflexivity.
Qed.

Lemma pred_reduced_main E b a s :
  pred_reduced E b (trace (main E a s)) =
  match setup E a s with
  | (Ok (tiling, batches), _, s1) =>
      pred_reduced E b (trace (predict_loop E a tiling
                                 (Z.of_nat (length (tiles tiling))) 0 batches s1))
  | _ => []
  end.
Proof.
  unfold pred_reduced. apply main_flat_map.
  intros [] Hr; simpl in *; try reflexivity; exfalso; apply Hr; reflexivity.
Qed.

Lemma setup_batches E a s tiling batches ts s1 :
  setup E a s = (Ok (tiling, batches), ts, s1) ->
  exists c, In (EInputCanvas c) ts /\
    dataset_batch (unet_batch_size a) (getGeneratorFactory tiling c) = Ok batches.
Proof.
  unfold setup. repeat (run_unfold; try run_step); intros H; try discriminate.
  all: injection H as <- <- <- <-; eexists; split; [in_list|eassumption].
Qed.

Lemma dataset_batch_shape {A} (n : Z) (l : list A) bs :
  dataset_batch n l = Ok bs ->
  concat bs = l /\ Forall (fun b => b <> [] /\ Z.of_nat (length b) <= n) bs.
Proof.
  unfold dataset_batch. destruct (n <=? 0) eqn:Hn; [discriminate|].
  intros H. injection H as <-. apply Z.leb_gt in Hn.
  destruct (chunks_spec (Z.to_nat n) (length l) l) as [Hc [Hf _]]; [lia|lia|].
  split; [exact Hc|].
  eapply Forall_impl; [|exact Hf]. intros b [Hb Hl]. split; [exact Hb|].
  apply Nat2Z.inj_le in Hl. rewrite Z2Nat.id in Hl by lia. exact Hl.
Qed.

Lemma dataset_batch_nonpos {A} n (l : list A) :
  n <= 0 -> dataset_batch n l = Err InvalidArgumentError.
Proof. intros H. unfold dataset_batch. apply Z.leb_le in H. rewrite H. reflexivity. Qed.

Lemma setup_output_canvas_nonpos E a s c :
  unet_batch_size a <= 0 -> In (EOutputCanvas c) (trace (setup E a s)) ->
  outcome (setup E a s) = Err InvalidArgumentError.
Proof.
  intros Hn. unfold setup. repeat (run_unfold; try run_step); intros Hin;
    simpl in Hin; try (exfalso; intuition discriminate; fail);
    match goal with
    | H : dataset_batch _ _ = _ |- _ =>
        rewrite (dataset_batch_nonpos _ _ Hn) in H
    end; try discriminate.
  all: match goal with H : Err _ = Err _ |- _ => injection H as <- end; reflexivity.
Qed.

Lemma setup_not_ok_nonpos E a s :
  unet_batch_size a <= 0 -> forall r, outcome (setup E a s) <> Ok r.
Proof.
  intros Hn [tiling batches] Hr.
  destruct (setup E a s) as [[o ts] s1] eqn:Es. unfold outcome in Hr. simpl in Hr.
  subst o. destruct (setup_batches E a s tiling batches ts s1 Es) as [c [_ Hb]].
  rewrite (dataset_batch_nonpos _ _ Hn) in Hb. discriminate.
Qed.

(** With a model that answers every batch with no outputs, the tile
    counter never moves: each round consumes one batch. *)
Lemma predict_loop_empty_answers E a tiling n tile batches s :
  (forall inp, predict E inp = Ok []) -> tile < n ->
  predict_loop E a tiling n tile batches s =
  (Err StopIteration, map EPredict batches ++ [ERaised StopIteration], s).
Proof.
  intros Hp Hlt. apply Z.ltb_lt in Hlt.
  induction batches as [|inp bs IH]; rewrite predict_loop_run, Hlt; [reflexivity|].
  rewrite Hp. simpl reduce_batch. cbv iota beta.
  rewrite write_batch_nil, IH. reflexivity.
Qed.

Lemma map_EPredict_obs l r :
  pred_inputs (map EPredict l ++ r) = l ++ pred_inputs r /\
  count is_writeslice (map EPredict l ++ r) = count is_writeslice r.
Proof.
  induction l as [|x l [IH1 IH2]]; [split; reflexivity|]. cbn [map app]. split.
  - change (pred_inputs (EPredict x :: map EPredict l ++ r))
      with (x :: pred_inputs (map EPredict l ++ r)).
    rewrite IH1. reflexivity.
  - rewrite count_cons. exact IH2.
Qed.

Lemma main_failed_call E a s t1 inp t2 e :
  trace (main E a s) = t1 ++ EPredict inp :: t2 ->
  (predict E inp = Err e \/
   exists outs, predict E inp = Ok outs /\
                reduce_batch (as_binary_mask a) outs = Err e) ->
  t2 = [ERaised e] /\ outcome (main E a s) = Err e.
Proof.
  intros H Hf.
  destruct (main_loop_occurrence E a s t1 (EPredict inp) t2 H eq_refl)
    as [tiling [batches [ts [s1 [u1 [u2 [rest [Es [Hl [_ [-> [_ Herr]]]]]]]]]]]].
  destruct (predict_loop_at_call _ _ _ _ _ _ _ _ _ _ Hl)
    as [tile0 [bs [s0 [_ [Hlt [Ht0 Ho0]]]]]].
  apply Z.ltb_lt in Hlt.
  assert (Hu : u2 = [ERaised e] /\
               outcome (predict_loop E a tiling (Z.of_nat (length (tiles tiling)))
                          tile0 (inp :: bs) s0) = Err e).
  { rewrite predict_loop_run, Hlt in Ht0 |- *.
    destruct Hf as [Hp|[outs [Hp Hr]]]; rewrite Hp in Ht0 |- *;
      [|rewrite Hr in Ht0 |- *];
      unfold trace, outcome in Ht0 |- *; simpl in Ht0 |- *;
      injection Ht0; intros; subst; split; reflexivity. }
  destruct Hu as [-> Ho]. rewrite <- Ho0 in Ho.
  destruct (Herr e Ho) as [-> Hm]. split; [reflexivity|exact Hm].
Qed.

Lemma reduce_batch_bad_tile b outs :
  Exists (fun t => exists e, reduce_tile b t = Err e) outs ->
  exists e, reduce_batch b outs = Err e.
Proof.
  induction 1 as [t outs [e He]|t outs _ [e IH]]; simpl.
  - rewrite He. exists e. reflexivity.
  - destruct (reduce_tile b t) as [d|e'|] eqn:Et.
    + rewrite IH. exists e. reflexivity.
    + exists e'. reflexivity.
    + exfalso. unfold reduce_tile in Et. destruct b;
        [destruct (pclasses t =? 0)%nat|destruct (pclasses t <? 2)%nat]; discriminate.
Qed.

(** ** The tile stream of a run *)

(** The tiles written by [writeSlice] are, in call order, the reduced
    outputs of the model calls, with nothing skipped or reordered; a run
    that reaches the final write has written every reduced tile. *)
Theorem main_written_stream E a s :
  exists rest,
    pred_reduced E (as_binary_mask a) (trace (main E a s)) =
      ws_data (trace (main E a s)) ++ rest /\
    (count is_write (trace (main E a s)) <> 0%nat -> rest = []).
Proof.
  rewrite pred_reduced_main, ws_data_main.
  destruct (setup E a s) as [[[[tiling batches]|e|] ts] s1] eqn:Es;
    [|exists []; split; [reflexivity|intros _; reflexivity]..].
  destruct (predict_loop_stream E a tiling (Z.of_nat (length (tiles tiling))) 0
              batches s1) as [m [_ [rest [Hr Hok]]]].
  exists rest. split; [exact Hr|]. intros Hw.
  destruct (main_write_reached E a s Hw)
    as [tiling' [batches' [ts' [s1' [tl [s2 [tp [s3 [Es' [El _]]]]]]]]]].
  rewrite Es in Es'. injection Es' as <- <- <- <-.
  apply Hok. unfold outcome. rewrite El. reflexivity.
Qed.

(** The model is called on the batches of the tile dataset in order,
    a prefix of them; the batches cut the input windows read from the
    input canvas into consecutive non-empty groups of at most
    [unet_batch_size]. *)
Theorem main_model_inputs E a s tiling batches ts s1 :
  setup E a s = (Ok (tiling, batches), ts, s1) ->
  (exists m, pred_inputs (trace (main E a s)) = firstn m batches) /\
  exists c, In (EInputCanvas c) ts /\
    concat batches = getGeneratorFactory tiling c /\
    Forall (fun b => b <> [] /\ Z.of_nat (length b) <= unet_batch_size a) batches.
Proof.
  intros Es. split.
  - rewrite pred_inputs_main, Es.
    destruct (predict_loop_stream E a tiling (Z.of_nat (length (tiles tiling))) 0
                batches s1) as [m [Hm _]].
    exists m. exact Hm.
  - destruct (setup_batches E a s tiling batches ts s1 Es) as [c [Hin Hb]].
    destruct (dataset_batch_shape _ _ _ Hb) as [Hc Hf].
    exists c. split; [exact Hin|split; assumption].
Qed.

Lemma main_model_inputs_witness :
  exists tiling batches ts s1,
    setup ex_env_mix ex_args_mix ex_dummy = (Ok (tiling, batches), ts, s1) /\
    ((exists m, pred_inputs (trace (main ex_env_mix ex_args_mix ex_dummy))
                = firstn m batches) /\
     exists c, In (EInputCanvas c) ts /\
       concat batches = getGeneratorFactory tiling c /\
       Forall (fun b => b <> [] /\
                 Z.of_nat (length b) <= unet_batch_size ex_args_mix) batches).
Proof.
  match eval vm_compute in (setup ex_env_mix ex_args_mix ex_dummy) with
  | (Ok (?t, ?b), ?ts, ?s1) =>
      assert (Es : setup ex_env_mix ex_args_mix ex_dummy = (Ok (t, b), ts, s1))
        by (vm_compute; reflexivity);
      exists t, b, ts, s1; split; [exact Es|];
      exact (main_model_inputs _ _ _ _ _ _ _ Es)
  end.
Defined.

(** [unet.predict] is only called while some tile is still unwritten: at
    each call, the number of [writeSlice] calls so far is below the number
    of tiles of the plan. *)
Theorem main_predict_pending_tile E a s t1 inp t2 :
  trace (main E a s) = t1 ++ EPredict inp :: t2 ->
  exists tiling, plan_of a = Planned tiling /\
    (count is_writeslice t1 < length (tiles tiling))%nat.
Proof.
  intros H.
  destruct (main_loop_occurrence E a s t1 (EPredict inp) t2 H eq_refl)
    as [tiling [batches [ts [s1 [u1 [u2 [rest [Es [Hl [-> [_ [HS _]]]]]]]]]]]].
  destruct (predict_loop_at_call _ _ _ _ _ _ _ _ _ _ Hl)
    as [tile0 [bs [s0 [H0 [Hlt _]]]]].
  exists tiling. split.
  - apply (setup_outcome_plan E a s tiling batches). unfold outcome. rewrite Es.
    reflexivity.
  - rewrite count_app, (Forall_setup_count is_writeslice ts HS);
      [simpl; lia|intros [] X; simpl in *; try discriminate; lia|intros; reflexivity].
Qed.

Lemma main_predict_pending_tile_witness :
  exists t1 inp t2,
    trace (main ex_env_mix ex_args_mix ex_dummy) = t1 ++ EPredict inp :: t2 /\
    exists tiling, plan_of ex_args_mix = Planned tiling /\
      (count is_writeslice t1 < length (tiles tiling))%nat.
Proof.
  match eval vm_compute in (trace (main ex_env_mix ex_args_mix ex_dummy)) with
  | context [EPredict [?x]] =>
      assert (Hin : In (EPredict [x]) (trace (main ex_env_mix ex_args_mix ex_dummy)))
        by (vm_compute; repeat (first [left; reflexivity | right]));
      destruct (in_split _ _ Hin) as [t1 [t2 H]];
      exists t1, [x], t2; split; [exact H|];
      exact (main_predict_pending_tile _ _ _ _ _ _ H)
  end.
Defined.

(** A model call that fails, or whose output the class reduction rejects,
    ends the run: the exception is the last event and the run's outcome. *)
Theorem main_failed_call_ends_run E a s t1 inp t2 e :
  trace (main E a s) = t1 ++ EPredict inp :: t2 ->
  (predict E inp = Err e \/
   exists outs, predict E inp = Ok outs /\
                reduce_batch (as_binary_mask a) outs = Err e) ->
  t2 = [ERaised e] /\ outcome (main E a s) = Err e.
Proof. exact (main_failed_call E a s t1 inp t2 e). Qed.

Lemma main_failed_call_ends_run_witness :
  exists t1 inp t2,
    trace (main ex_env_mix ex_args_mix ex_dummy) = t1 ++ EPredict inp :: t2 /\
    predict ex_env_mix inp = Err (ExternalError 0) /\
    t2 = [ERaised (ExternalError 0)] /\
    outcome (main ex_env_mix ex_args_mix ex_dummy) = Err (ExternalError 0).
Proof.
  match eval vm_compute in (trace (main ex_env_mix ex_args_mix ex_dummy)) with
  | context [EPredict [?x]] =>
      assert (Hin : In (EPredict [x]) (trace (main ex_env_mix ex_args_mix ex_dummy)))
        by (vm_compute; repeat (first [left; reflexivity | right]));
      destruct (in_split _ _ Hin) as [t1 [t2 H]];
      assert (Hp : predict ex_env_mix [x] = Err (ExternalError 0))
        by (vm_compute; reflexivity);
      exists t1, [x], t2; split; [exact H|]; split; [exact Hp|];
      exact (main_failed_call_ends_run _ _ _ _ _ _ _ H (or_introl Hp))
  end.
Defined.

(** A non-positive [unet_batch_size] makes [dataset.batch] fail: the model
    is never called, no tile and no result is written, and a run that got
    as far as creating the output canvas fails with InvalidArgumentError. *)
Theorem main_nonpositive_batch_size E a s :
  unet_batch_size a <= 0 ->
  count is_predict (trace (main E a s)) = 0%nat /\
  count is_writeslice (trace (main E a s)) = 0%nat /\
  count is_write (trace (main E a s)) = 0%nat /\
  outcome (main E a s) <> Ok tt /\
  (forall c, In (EOutputCanvas c) (trace (main E a s)) ->
     outcome (main E a s) = Err InvalidArgumentError).
Proof.
  intros Hn. pose proof (setup_ranks E a s) as HS.
  destruct (main_structure E a s)
    as [[tiling [batches [ts [s1 [rest [Es _]]]]]]|[Hno [Et Ho]]].
  - exfalso. apply (setup_not_ok_nonpos E a s Hn (tiling, batches)).
    unfold outcome. rewrite Es. reflexivity.
  - rewrite Et.
    split; [apply (Forall_setup_count _ _ HS);
            [intros [] X; simpl in *; try discriminate; lia|intros; reflexivity]|].
    split; [apply (Forall_setup_count _ _ HS);
            [intros [] X; simpl in *; try discriminate; lia|intros; reflexivity]|].
    split; [apply (Forall_setup_count _ _ HS);
            [intros [] X; simpl in *; try discriminate; lia|intros; reflexivity]|].
    split.
    + rewrite Ho. destruct (outcome (setup E a s)) as [r|e|] eqn:Eo;
        [exfalso; exact (Hno r eq_refl)|discriminate|discriminate].
    + intros c Hin. rewrite Ho, (setup_output_canvas_nonpos E a s c Hn Hin).
      reflexivity.
Qed.

Lemma main_nonpositive_batch_size_witness :
  unet_batch_size (ex_args (mkV3 2 1 1) (Some 2%R) false 0) <= 0 /\
  count is_predict (trace (main (ex_env 2 (fun _ => true))
                         (ex_args (mkV3 2 1 1) (Some 2%R) false 0) ex_dummy)) = 0%nat /\
  count is_writeslice (trace (main (ex_env 2 (fun _ => true))
                         (ex_args (mkV3 2 1 1) (Some 2%R) false 0) ex_dummy)) = 0%nat /\
  count is_write (trace (main (ex_env 2 (fun _ => true))
                         (ex_args (mkV3 2 1 1) (Some 2%R) false 0) ex_dummy)) = 0%nat /\
  outcome (main (ex_env 2 (fun _ => true))
             (ex_args (mkV3 2 1 1) (Some 2%R) false 0) ex_dummy) <> Ok tt /\
  (forall c, In (EOutputCanvas c) (trace (main (ex_env 2 (fun _ => true))
                         (ex_args (mkV3 2 1 1) (Some 2%R) false 0) ex_dummy)) ->
     outcome (main (ex_env 2 (fun _ => true))
                (ex_args (mkV3 2 1 1) (Some 2%R) false 0) ex_dummy)
       = Err InvalidArgumentError).
Proof.
  split; [simpl; lia|]. apply main_nonpositive_batch_size. simpl. lia.
Defined.

(** A model that answers every batch with no outputs never advances the
    tile counter: the loop calls it on every batch of the dataset, writes
    no tile, and fails with StopIteration once the dataset is exhausted. *)
Theorem main_empty_answers E a s tiling batches ts s1 :
  (forall inp, predict E inp = Ok []) ->
  setup E a s = (Ok (tiling, batches), ts, s1) ->
  tiles tiling <> [] ->
  outcome (main E a s) = Err StopIteration /\
  pred_inputs (trace (main E a s)) = batches /\
  count is_writeslice (trace (main E a s)) = 0%nat.
Proof.
  intros Hp Es Hne.
  assert (Hlt : 0 < Z.of_nat (length (tiles tiling)))
    by (destruct (tiles tiling); [congruence|simpl; lia]).
  pose proof (predict_loop_empty_answers E a tiling _ 0 batches s1 Hp Hlt) as El.
  pose proof (setup_ranks E a s) as HS. rewrite Es in HS.
  unfold trace in HS. cbn [fst snd] in HS.
  destruct (map_EPredict_obs batches [ERaised StopIteration]) as [H1 H2].
  split; [rewrite main_run, Es, El; reflexivity|]. split.
  - rewrite pred_inputs_main, Es, El. unfold trace. cbn [fst snd].
    rewrite H1. simpl. apply app_nil_r.
  - rewrite main_run, Es, El. unfold trace. cbn [fst snd].
    rewrite count_app, H2, (Forall_setup_count is_writeslice ts HS);
      [reflexivity|intros [] X; simpl in *; try discriminate; lia|intros; reflexivity].
Qed.

Lemma main_empty_answers_witness :
  exists tiling batches ts s1,
    setup ex_env_empty (ex_args (mkV3 2 1 1) (Some 2%R) false 1) ex_dummy
      = (Ok (tiling, batches), ts, s1) /\
    tiles tiling <> [] /\
    outcome (main ex_env_empty (ex_args (mkV3 2 1 1) (Some 2%R) false 1) ex_dummy)
      = Err StopIteration /\
    pred_inputs (trace (main ex_env_empty (ex_args (mkV3 2 1 1) (Some 2%R) false 1)
                          ex_dummy)) = batches /\
    count is_writeslice (trace (main ex_env_empty
                                  (ex_args (mkV3 2 1 1) (Some 2%R) false 1)
                                  ex_dummy)) = 0%nat.
Proof.
  match eval vm_compute in
    (setup ex_env_empty (ex_args (mkV3 2 1 1) (Some 2%R) false 1) ex_dummy) with
  | (Ok (?t, ?b), ?ts, ?s1) =>
      assert (Es : setup ex_env_empty (ex_args (mkV3 2 1 1) (Some 2%R) false 1) ex_dummy
                   = (Ok (t, b), ts, s1)) by (vm_compute; reflexivity);
      assert (Hne : tiles t <> []) by (intros Hx; vm_compute in Hx; discriminate Hx);
      exists t, b, ts, s1; split; [exact Es|]; split; [exact Hne|];
      exact (main_empty_answers ex_env_empty _ _ _ _ _ _ (fun _ => eq_refl) Es Hne)
  end.
Defined.

(** A model output tile whose class axis the reduction cannot handle (no
    class in binary-mask mode, fewer than two classes in probability mode)
    ends the run right after that model call, with an exception: no tile
    of that batch is written. *)
Theorem main_unusable_class_axis E a s t1 inp t2 outs :
  trace (main E a s) = t1 ++ EPredict inp :: t2 ->
  predict E inp = Ok outs ->
  Exists (fun t => if as_binary_mask a then pclasses t = 0%nat
                   else (pclasses t < 2)%nat) outs ->
  exists e, t2 = [ERaised e] /\ outcome (main E a s) = Err e.
Proof.
  intros H Hp Hx.
  destruct (reduce_batch_bad_tile (as_binary_mask a) outs) as [e He].
  - eapply Exists_impl; [|exact Hx]. intros t Ht. unfold reduce_tile.
    destruct (as_binary_mask a).
    + apply Nat.eqb_eq in Ht. rewrite Ht. eexists; reflexivity.
    + apply Nat.ltb_lt in Ht. rewrite Ht. eexists; reflexivity.
  - exists e. apply (main_failed_call E a s t1 inp t2 e H).
    right. exists outs. split; assumption.
Qed.

Lemma main_unusable_class_axis_witness :
  exists t1 inp t2 outs,
    trace (main (ex_env 1 (fun _ => true)) (ex_args (mkV3 2 1 1) (Some 2%R) false 1)
             ex_dummy) = t1 ++ EPredict inp :: t2 /\
    predict (ex_env 1 (fun _ => true)) inp = Ok outs /\
    Exists (fun t => (pclasses t < 2)%nat) outs /\
    exists e, t2 = [ERaised e] /\
      outcome (main (ex_env 1 (fun _ => true))
                 (ex_args (mkV3 2 1 1) (Some 2%R) false 1) ex_dummy) = Err e.
Proof.
  match eval vm_compute in
    (trace (main (ex_env 1 (fun _ => true)) (ex_args (mkV3 2 1 1) (Some 2%R) false 1)
              ex_dummy)) with
  | context [EPredict ?x] =>
      assert (Hin : In (EPredict x)
                      (trace (main (ex_env 1 (fun _ => true))
                                (ex_args (mkV3 2 1 1) (Some 2%R) false 1) ex_dummy)))
        by (vm_compute; repeat (first [left; reflexivity | right]));
      destruct (in_split _ _ Hin) as [t1 [t2 H]];
      assert (Hp : predict (ex_env 1 (fun _ => true)) x
                   = Ok (map (fun _ => mkParr (mkV3 1 1 1) 1 (fun _ _ => 0%R)) x))
        by reflexivity;
      assert (Hx : Exists (fun t => (pclasses t < 2)%nat)
                     (map (fun _ => mkParr (mkV3 1 1 1) 1 (fun _ _ => 0%R)) x))
        by (vm_compute; apply Exists_cons_hd; lia);
      exists t1, x, t2, (map (fun _ => mkParr (mkV3 1 1 1) 1 (fun _ _ => 0%R)) x);
      split; [exact H|]; split; [exact Hp|]; split; [exact Hx|];
      exact (main_unusable_class_axis _ _ _ _ _ _ _ H Hp Hx)
  end.
Defined.
